(** * HuggingFaceCheckpointer: a shallow embedding of
    [llmfoundry/callbacks/hf_checkpointer.py]

    The callback saves a Hugging Face formatted checkpoint during training.
    This development embeds the parts of the file that carry its logic:

    - [_maybe_get_license_filename] and the regular expression
      [_LICENSE_FILE_PATTERN];
    - [HuggingFaceCheckpointer.__init__];
    - [run_event] with its three branches (save, [INIT], [FIT_END]);
    - [_is_last_batch] and [_all_child_processes_done];
    - [transform_config], over a store of objects;
    - the nested [tensor_hook] of [_save_checkpoint] and the block that stamps
      the pretrained model name on the new model instance.

    Python values are embedded as follows.  An [int] is a [Z]; a [float] that
    is compared or multiplied is a [Q] (finite values only); a [str] that is
    used as a key or a label is a [string], a file name is a list of code
    points; a [dict] is a [gmap]; [None] is [None] of an [option].  A raised
    exception is the [Raise] outcome.  The collaborators that the file imports
    (Composer's [State], [Time] and interval scheduler, torch's tensors and
    process group, the file system and the clock) appear as records and as
    oracles that the definitions take as arguments. *)

From Stdlib Require Import ZArith QArith Qround Lia Lqa.
From stdpp Require Import gmap strings list fin_maps sorting.

Set Warnings "-register-all,-clear-no-such-hyp".
Local Open Scope Z_scope.

(** ** Outcomes *)

(** The exceptions that the embedded code can raise. *)
Inductive exn :=
| AssertionError
| ZeroDivisionError
| ValueError (msg : string)
| KeyError (key : string)
| AttributeError (attr : string)
| TypeError (what : string)
| TimeoutError.

(** [Ok] is a normal return, [Raise] an exception that leaves the function,
    [OutOfFuel] marks a loop that was cut off by the model's fuel. *)
Inductive outcome (A : Type) :=
| Ok (a : A)
| Raise (e : exn)
| OutOfFuel.
Arguments Ok {A} a.
Arguments Raise {A} e.
Arguments OutOfFuel {A}.

#[global] Instance outcome_ret : MRet outcome := fun A a => Ok a.

#[global] Instance outcome_bind : MBind outcome := fun A B k m =>
  match m with
  | Ok a => k a
  | Raise e => Raise e
  | OutOfFuel => OutOfFuel
  end.

#[global] Instance outcome_fmap : FMap outcome := fun A B f m =>
  match m with
  | Ok a => Ok (f a)
  | Raise e => Raise e
  | OutOfFuel => OutOfFuel
  end.

(** ** Python values *)

(** The values found in a config object or in [mlflow_logging_config]. *)
Inductive pyval :=
| PNone
| PBool (b : bool)
| PInt (z : Z)
| PStr (s : string)
| PList (l : list pyval)
| PDict (d : gmap string pyval).

(** Python's [a % b] on integers: the result has the sign of [b], and a zero
    divisor raises. *)
Definition py_mod (a b : Z) : outcome Z :=
  if b =? 0 then Raise ZeroDivisionError else Ok (a mod b).

(** ** Composer's time and state *)

Inductive TimeUnit := EPOCH | BATCH | SAMPLE | TOKEN | DURATION | SECOND.

Definition TimeUnit_eqb (u v : TimeUnit) : bool :=
  match u, v with
  | EPOCH, EPOCH | BATCH, BATCH | SAMPLE, SAMPLE
  | TOKEN, TOKEN | DURATION, DURATION | SECOND, SECOND => true
  | _, _ => false
  end.

(** [Time(value, unit)]: the value is an [int], or a [float] for
    [TimeUnit.DURATION]. *)
Record Time := { value : Q; unit : TimeUnit }.

Record Timestamp := {
  epoch : Z;
  batch : Z;
  batch_in_epoch : Z;
}.

(** [state.model]: a [HuggingFaceModel], a [DistributedDataParallel] wrapper
    around one (its [.module]), or some other model class. *)
Record HuggingFaceModel := {
  hf_using_peft : bool;
  hf_model_is_fsdp : bool;
}.

Inductive ComposerModel :=
| IsHuggingFaceModel (m : HuggingFaceModel)
| IsDDP (module : HuggingFaceModel)
| IsOtherModel (type_name : string).

Inductive Callback := RemoteUploaderDownloaderCallback (uri : string).

(** The part of Composer's [State] that the callback reads.
    [get_elapsed_duration] is the result of the method of that name.
    Composer computes it from the timestamp and [max_duration]; a property
    that needs this relation states it as a hypothesis. *)
Record State := {
  get_elapsed_duration : option Q;
  max_duration : option Time;
  dataloader_len : option Z;
  timestamp : Timestamp;
  model : ComposerModel;
  callbacks : list Callback;
}.

(** [State.is_model_ddp]: whether the model is wrapped in
    [DistributedDataParallel]. *)
Definition is_model_ddp (state : State) : bool :=
  match model state with IsDDP _ => true | _ => false end.

Inductive Event :=
| INIT | BEFORE_LOAD | AFTER_LOAD | FIT_START | ITERATION_START
| EPOCH_START | BATCH_START | BATCH_END | BATCH_CHECKPOINT
| EPOCH_END | EPOCH_CHECKPOINT | ITERATION_END | ITERATION_CHECKPOINT
| EVAL_START | EVAL_END | FIT_END.

Definition Event_eqb (e f : Event) : bool :=
  match e, f with
  | INIT, INIT | BEFORE_LOAD, BEFORE_LOAD | AFTER_LOAD, AFTER_LOAD
  | FIT_START, FIT_START | ITERATION_START, ITERATION_START
  | EPOCH_START, EPOCH_START | BATCH_START, BATCH_START
  | BATCH_END, BATCH_END | BATCH_CHECKPOINT, BATCH_CHECKPOINT
  | EPOCH_END, EPOCH_END | EPOCH_CHECKPOINT, EPOCH_CHECKPOINT
  | ITERATION_END, ITERATION_END
  | ITERATION_CHECKPOINT, ITERATION_CHECKPOINT
  | EVAL_START, EVAL_START | EVAL_END, EVAL_END | FIT_END, FIT_END => true
  | _, _ => false
  end.

Inductive LoggerDestination :=
| MLFlowLogger (run_id : string)
| OtherLogger (name : string).

Record Logger := { destinations : list LoggerDestination }.

Definition is_MLFlowLogger (d : LoggerDestination) : bool :=
  match d with MLFlowLogger _ => true | OtherLogger _ => false end.

(** ** The callback object *)

Inductive Dtype := float32 | float16 | bfloat16 | int64 | uint8.

Record HuggingFaceCheckpointer := {
  save_dir_format_str : string;
  overwrite : bool;
  precision : string;
  dtype : Dtype;
  flatten_imports : list string;
  using_peft : bool;
  mlflow_registered_model_name : option string;
  mlflow_logging_config : gmap string pyval;
  pretrained_model_name : pyval;
  huggingface_folder_name_fstr : string;
  save_interval : Time;
  remote_ud : option Callback;
  last_checkpoint_batch : option Z;
  mlflow_loggers : list LoggerDestination;
  child_processes : list nat;
  temp_save_dir : option string;
}.

(** ** [_is_last_batch] *)

(** [a == b] where [a] may be [None]. *)
Definition py_eq_opt (a : option Z) (b : Z) : bool :=
  match a with Some x => x =? b | None => false end.

Definition _is_last_batch (self : HuggingFaceCheckpointer) (state : State)
  : outcome bool :=
  let elapsed_duration := get_elapsed_duration state in
  if match elapsed_duration with
     | Some e => Qle_bool 1 e
     | None => false
     end
  then Ok true
  else
    match max_duration state with
    | None => Raise AssertionError
    | Some md =>
      let epoch_complete :=
        py_eq_opt (dataloader_len state) (batch_in_epoch (timestamp state)) in
      let second_to_last_epoch :=
        TimeUnit_eqb (unit md) EPOCH &&
        Qeq_bool (inject_Z (epoch (timestamp state))) (value md - 1) in
      if TimeUnit_eqb (unit (save_interval self)) BATCH
         && second_to_last_epoch && epoch_complete
      then Ok true
      else if TimeUnit_eqb (unit (save_interval self)) DURATION
              && Qeq_bool (value (save_interval self)) 1
              && TimeUnit_eqb (unit md) EPOCH
      then
        match dataloader_len state with
        | None => Raise AssertionError
        | Some len =>
          r ← py_mod (batch (timestamp state))
                     (Qceiling (value md * inject_Z len));
          Ok (r =? 0)
        end
      else Ok false
    end.

(** The three situations in which the last batch is recognised. *)

(** (a) the elapsed fraction of training is at least 1.0. *)
Definition elapsed_at_least_one (state : State) : Prop :=
  ∃ e, get_elapsed_duration state = Some e ∧ (1 <= e)%Q.

(** (b) the interval is in batches, the maximum duration in epochs, the epoch
    counter is one below the maximum and the batch counter of the epoch has
    reached the length of the dataloader. *)
Definition batch_interval_alignment
    (self : HuggingFaceCheckpointer) (state : State) : Prop :=
  unit (save_interval self) = BATCH ∧
  ∃ md, max_duration state = Some md ∧ unit md = EPOCH ∧
        (inject_Z (epoch (timestamp state)) == value md - 1)%Q ∧
        dataloader_len state = Some (batch_in_epoch (timestamp state)).

(** (c) the interval is exactly [1dur], the maximum duration is in epochs and
    the batch index is a multiple of [ceil(max_epochs * steps_per_epoch)]. *)
Definition one_duration_alignment
    (self : HuggingFaceCheckpointer) (state : State) : Prop :=
  unit (save_interval self) = DURATION ∧
  (value (save_interval self) == 1)%Q ∧
  ∃ md len, max_duration state = Some md ∧ unit md = EPOCH ∧
            dataloader_len state = Some len ∧
            py_mod (batch (timestamp state))
                   (Qceiling (value md * inject_Z len)) = Ok 0.


(** ** [HuggingFaceCheckpointer.__init__] *)

(** The argument [save_interval : Union[str, int, Time]]. *)
Inductive IntervalInput :=
| IntervalInt (n : Z)
| IntervalStr (s : string)
| IntervalTime (t : Time).

(** The functions that [__init__] imports from Composer. *)
Record Imports := {
  parse_uri : string -> string * string * string;
  from_timestring : string -> outcome Time;
  maybe_create_remote_uploader_downloader_from_uri : string -> option Callback;
}.

(** [Time.from_input(i, default_int_unit)]. *)
Definition Time_from_input (imports : Imports) (i : IntervalInput)
    (default_int_unit : TimeUnit) : outcome Time :=
  match i with
  | IntervalInt n => Ok {| value := inject_Z n; unit := default_int_unit |}
  | IntervalStr s => from_timestring imports s
  | IntervalTime t => Ok t
  end.

(** [os.path.join(a, b)] on POSIX paths. *)
Definition os_path_join (a b : string) : string :=
  if String.prefix "/" b then b
  else if String.eqb a "" then b
  else if String.eqb (String.substring (String.length a - 1) 1 a) "/" then a +:+ b
  else a +:+ "/" +:+ b.

(** [s.endswith(suffix)]. *)
Definition str_endswith (s suffix : string) : bool :=
  let n := String.length s in
  let m := String.length suffix in
  (m <=? n)%nat && String.eqb (String.substring (n - m) m s) suffix.

(** [v.endswith(suffix)] and [v.get(key, default)] on a value that need not
    be a [str] or a [dict]. *)
Definition value_endswith (v : pyval) (suffix : string) : outcome bool :=
  match v with
  | PStr s => Ok (str_endswith s suffix)
  | _ => Raise (AttributeError "endswith")
  end.

Definition value_get (v : pyval) (key : string) (default : pyval)
  : outcome pyval :=
  match v with
  | PDict d => Ok (match d !! key with Some x => x | None => default end)
  | _ => Raise (AttributeError "get")
  end.

(** [d.setdefault(key, v)]. *)
Definition setdefault (key : string) (v : pyval) (d : gmap string pyval)
  : gmap string pyval :=
  match d !! key with
  | Some _ => d
  | None => <[key := v]> d
  end.

(** The dictionary literal that [__init__] indexes with [precision]. *)
Definition precision_table : gmap string Dtype :=
  <["float32" := float32]> (<["float16" := float16]>
    (<["bfloat16" := bfloat16]> ∅)).

(** [task.endswith('chat') or (metadata is not None and
    metadata.get('task', '').endswith('chat'))]. *)
Definition metadata_says_chat (task_is_chat : bool) (metadata : pyval)
  : outcome bool :=
  if task_is_chat then Ok true
  else match metadata with
       | PNone => Ok false
       | md => t ← value_get md "task" (PStr ""); value_endswith t "chat"
       end.

(** The setup of [mlflow_logging_config] when a registered model name is
    given. *)
Definition setup_mlflow_logging_config (config : gmap string pyval)
  : outcome (gmap string pyval) :=
  let passed_metadata :=
    match config !! "metadata" with Some md => md | None => PDict ∅ end in
  let config := <["metadata" := passed_metadata]> config in
  let config := setdefault "task" (PStr "llm/v1/completions") config in
  task ← match config !! "task" with
         | Some t => Ok t
         | None => Raise (KeyError "task")
         end;
  task_is_chat ← value_endswith task "chat";
  is_chat ← metadata_says_chat task_is_chat passed_metadata;
  let default_input_example :=
    if (is_chat : bool)
    then PDict {[ "messages" :=
                  PList [PDict (<["role" := PStr "user"]>
                                  {[ "content" := PStr "What is Machine Learning?" ]})] ]}
    else PDict {[ "prompt" := PList [PStr "What is Machine Learning?"] ]} in
  Ok (setdefault "input_example" default_input_example config).

(** [__init__].  The defaults of the Python signature are
    [huggingface_folder_name = "ba{batch}"], [precision = "float32"],
    [overwrite = True], [mlflow_registered_model_name = None],
    [mlflow_logging_config = None] and [flatten_imports = ("llmfoundry",)]. *)
Definition __init__ (imports : Imports)
    (save_folder : string) (save_interval : IntervalInput)
    (huggingface_folder_name : string) (precision : string)
    (overwrite : bool) (mlflow_registered_model_name : option string)
    (mlflow_logging_config : option (gmap string pyval))
    (flatten_imports : list string) : outcome HuggingFaceCheckpointer :=
  let save_dir_format_str := (parse_uri imports save_folder).2 in
  dtype ← match precision_table !! precision with
          | Some d => Ok d
          | None => Raise (KeyError precision)
          end;
  let config :=
    match mlflow_logging_config with Some c => c | None => ∅ end in
  config ← match mlflow_registered_model_name with
           | Some _ => setup_mlflow_logging_config config
           | None => Ok config
           end;
  pretrained_model_name ←
    match config !! "metadata" with
    | Some md => value_get md "pretrained_model_name" PNone
    | None => Ok PNone
    end;
  save_interval ← Time_from_input imports save_interval EPOCH;
  Ok {| save_dir_format_str := save_dir_format_str;
        overwrite := overwrite;
        precision := precision;
        dtype := dtype;
        flatten_imports := flatten_imports;
        using_peft := false;
        mlflow_registered_model_name := mlflow_registered_model_name;
        mlflow_logging_config := config;
        pretrained_model_name := pretrained_model_name;
        huggingface_folder_name_fstr :=
          os_path_join "huggingface" huggingface_folder_name;
        save_interval := save_interval;
        remote_ud :=
          maybe_create_remote_uploader_downloader_from_uri imports save_folder;
        last_checkpoint_batch := None;
        mlflow_loggers := [];
        child_processes := [];
        temp_save_dir := None |}.

(** ** The world outside the callback *)

(** What a call of [run_event] does to the outside, in order. *)
Inductive Effect :=
| SaveCheckpoint (batch : Z)
| RemoteInit (ud : Callback)
| SetMaxShardSize (size : string)
| LogModel (logger_index : nat)
| StartProcess (process : nat)
| AllReduce (contribution : Z)
| Sleep (seconds : Z)
| Rmtree (dir : string).

(** The answers of the collaborators.  [time_time n] is the reading number
    [n] of [time.time()] within one call of [run_event]; [is_alive k p] is
    [p.is_alive()] at the poll number [k]; [peers k] are the values that the
    other ranks contribute to the [all_reduce] of poll [k]. *)
Record World := {
  get_global_rank : Z;
  time_time : nat -> Q;
  is_alive : nat -> nat -> bool;
  peers : nat -> list Z;
  mkdtemp : string;
  format_name_with_dist_and_time : string -> Timestamp -> string;
  new_process : nat -> nat;
}.

(** ** Attribute assignment on the callback *)

Definition set_last_checkpoint_batch (v : option Z)
    (self : HuggingFaceCheckpointer) : HuggingFaceCheckpointer :=
  {| save_dir_format_str := save_dir_format_str self;
     overwrite := overwrite self;
     precision := precision self;
     dtype := dtype self;
     flatten_imports := flatten_imports self;
     using_peft := using_peft self;
     mlflow_registered_model_name := mlflow_registered_model_name self;
     mlflow_logging_config := mlflow_logging_config self;
     pretrained_model_name := pretrained_model_name self;
     huggingface_folder_name_fstr := huggingface_folder_name_fstr self;
     save_interval := save_interval self;
     remote_ud := remote_ud self;
     last_checkpoint_batch := v;
     mlflow_loggers := mlflow_loggers self;
     child_processes := child_processes self;
     temp_save_dir := temp_save_dir self |}.

Definition set_mlflow_loggers (v : list LoggerDestination)
    (self : HuggingFaceCheckpointer) : HuggingFaceCheckpointer :=
  {| save_dir_format_str := save_dir_format_str self;
     overwrite := overwrite self;
     precision := precision self;
     dtype := dtype self;
     flatten_imports := flatten_imports self;
     using_peft := using_peft self;
     mlflow_registered_model_name := mlflow_registered_model_name self;
     mlflow_logging_config := mlflow_logging_config self;
     pretrained_model_name := pretrained_model_name self;
     huggingface_folder_name_fstr := huggingface_folder_name_fstr self;
     save_interval := save_interval self;
     remote_ud := remote_ud self;
     last_checkpoint_batch := last_checkpoint_batch self;
     mlflow_loggers := v;
     child_processes := child_processes self;
     temp_save_dir := temp_save_dir self |}.

Definition set_using_peft (v : bool)
    (self : HuggingFaceCheckpointer) : HuggingFaceCheckpointer :=
  {| save_dir_format_str := save_dir_format_str self;
     overwrite := overwrite self;
     precision := precision self;
     dtype := dtype self;
     flatten_imports := flatten_imports self;
     using_peft := v;
     mlflow_registered_model_name := mlflow_registered_model_name self;
     mlflow_logging_config := mlflow_logging_config self;
     pretrained_model_name := pretrained_model_name self;
     huggingface_folder_name_fstr := huggingface_folder_name_fstr self;
     save_interval := save_interval self;
     remote_ud := remote_ud self;
     last_checkpoint_batch := last_checkpoint_batch self;
     mlflow_loggers := mlflow_loggers self;
     child_processes := child_processes self;
     temp_save_dir := temp_save_dir self |}.

Definition set_child_processes (v : list nat)
    (self : HuggingFaceCheckpointer) : HuggingFaceCheckpointer :=
  {| save_dir_format_str := save_dir_format_str self;
     overwrite := overwrite self;
     precision := precision self;
     dtype := dtype self;
     flatten_imports := flatten_imports self;
     using_peft := using_peft self;
     mlflow_registered_model_name := mlflow_registered_model_name self;
     mlflow_logging_config := mlflow_logging_config self;
     pretrained_model_name := pretrained_model_name self;
     huggingface_folder_name_fstr := huggingface_folder_name_fstr self;
     save_interval := save_interval self;
     remote_ud := remote_ud self;
     last_checkpoint_batch := last_checkpoint_batch self;
     mlflow_loggers := mlflow_loggers self;
     child_processes := v;
     temp_save_dir := temp_save_dir self |}.

Definition set_temp_save_dir (v : option string)
    (self : HuggingFaceCheckpointer) : HuggingFaceCheckpointer :=
  {| save_dir_format_str := save_dir_format_str self;
     overwrite := overwrite self;
     precision := precision self;
     dtype := dtype self;
     flatten_imports := flatten_imports self;
     using_peft := using_peft self;
     mlflow_registered_model_name := mlflow_registered_model_name self;
     mlflow_logging_config := mlflow_logging_config self;
     pretrained_model_name := pretrained_model_name self;
     huggingface_folder_name_fstr := huggingface_folder_name_fstr self;
     save_interval := save_interval self;
     remote_ud := remote_ud self;
     last_checkpoint_batch := last_checkpoint_batch self;
     mlflow_loggers := mlflow_loggers self;
     child_processes := child_processes self;
     temp_save_dir := v |}.

Definition set_callbacks (v : list Callback) (state : State) : State :=
  {| get_elapsed_duration := get_elapsed_duration state;
     max_duration := max_duration state;
     dataloader_len := dataloader_len state;
     timestamp := timestamp state;
     model := model state;
     callbacks := v |}.

(** ** [_all_child_processes_done] *)

(** [dist.all_reduce(x, reduce_operation='MAX')]: the maximum over the ranks. *)
Definition all_reduce_max (x : Z) (others : list Z) : Z :=
  foldr Z.max x others.

Definition _all_child_processes_done
    (world : World) (self : HuggingFaceCheckpointer) (k : nat) : bool :=
  let not_done := existsb (is_alive world k) (child_processes self) in
  let x := if not_done then 1 else 0 in
  let x := all_reduce_max x (peers world k) in
  x =? 0.

(** ** [_save_checkpoint], as far as the callback's own state goes *)

(** The registry part of [_save_checkpoint]: the loop over
    [enumerate(self.mlflow_loggers)].  Each turn logs the model, starts a
    process, appends it to [child_processes] and, with a temporary directory
    in use, remembers the directory. *)
Fixpoint register_loop (world : World) (use_temp_dir : bool)
    (temp_dir : string) (i : nat) (loggers : list LoggerDestination)
    (self : HuggingFaceCheckpointer)
  : list Effect * HuggingFaceCheckpointer :=
  match loggers with
  | [] => ([], self)
  | _ :: rest =>
    let process := new_process world i in
    let self := set_child_processes (child_processes self ++ [process]) self in
    let self := if use_temp_dir then set_temp_save_dir (Some temp_dir) self
                else self in
    let '(trace, self) :=
      register_loop world use_temp_dir temp_dir (S i) rest self in
    (LogModel i :: StartProcess process :: trace, self)
  end.

(** Python's truth value of [self.mlflow_registered_model_name]. *)
Definition truthy_name (name : option string) : bool :=
  match name with
  | Some s => negb (String.eqb s "")
  | None => false
  end.

(** [SaveCheckpoint b] stands for the gathering of the state dict on every
    rank and, on rank 0, for the files written and uploaded for batch [b]. *)
Definition _save_checkpoint (world : World) (self : HuggingFaceCheckpointer)
    (state : State) : list Effect * outcome HuggingFaceCheckpointer :=
  let self := set_last_checkpoint_batch (Some (batch (timestamp state))) self in
  let save_dir :=
    format_name_with_dist_and_time world
      (os_path_join (save_dir_format_str self)
                    (huggingface_folder_name_fstr self))
      (timestamp state) in
  let use_temp_dir := bool_decide (is_Some (remote_ud self)) in
  let temp_dir := if use_temp_dir then mkdtemp world else save_dir in
  let saved := [SaveCheckpoint (batch (timestamp state))] in
  if get_global_rank world =? 0 then
    if truthy_name (mlflow_registered_model_name self) then
      match _is_last_batch self state with
      | Ok true =>
        let '(trace, self) :=
          register_loop world use_temp_dir temp_dir 0 (mlflow_loggers self) self in
        (saved ++ trace, Ok self)
      | Ok false =>
        (saved ++ (if use_temp_dir then [Rmtree temp_dir] else []), Ok self)
      | Raise e => (saved, Raise e)
      | OutOfFuel => (saved, OutOfFuel)
      end
    else (saved ++ (if use_temp_dir then [Rmtree temp_dir] else []), Ok self)
  else (saved, Ok self).

(** ** [run_event] *)

(** The branch for [Event.INIT]. *)
Definition on_init (self : HuggingFaceCheckpointer) (state : State)
    (logger : Logger)
  : list Effect * outcome (HuggingFaceCheckpointer * State) :=
  match model state with
  | IsHuggingFaceModel m =>
    let '(trace, state) :=
      match remote_ud self with
      | Some ud => ([RemoteInit ud], set_callbacks (callbacks state ++ [ud]) state)
      | None => ([], state)
      end in
    let registered :=
      match mlflow_registered_model_name self with
      | Some _ =>
        let found := filter (fun d => is_MLFlowLogger d = true) (destinations logger) in
        if (length found =? 0)%nat
        then (trace, Raise (ValueError "mlflow_registered_model_name was set, but no MLFlowLogger was found"))
        else (trace ++ [SetMaxShardSize "1GB"], Ok (set_mlflow_loggers found self))
      | None => (trace, Ok self)
      end in
    match registered with
    | (trace, Ok self) =>
      (* [state.is_model_ddp] is false for a [HuggingFaceModel]; the other
         two branches both take [state.model] *)
      let composer_model := m in
      (trace, Ok (set_using_peft (hf_using_peft composer_model) self, state))
    | (trace, Raise e) => (trace, Raise e)
    | (trace, OutOfFuel) => (trace, OutOfFuel)
    end
  | IsDDP _ | IsOtherModel _ =>
    ([], Raise (ValueError "HuggingFaceCheckpointer is only compatible with HuggingFaceModels"))
  end.

(** The loop of the [FIT_END] branch.  [k] counts the polls made so far. *)
Fixpoint wait_for_child_processes (world : World)
    (self : HuggingFaceCheckpointer) (timeout : Q) (wait_start : Q)
    (fuel : nat) (k : nat) : list Effect * outcome () :=
  match fuel with
  | O => ([], OutOfFuel)
  | S fuel =>
    let poll := AllReduce (if existsb (is_alive world k) (child_processes self)
                           then 1 else 0) in
    if _all_child_processes_done world self k then ([poll], Ok tt)
    else
      let wait_time := (time_time world (S k) - wait_start)%Q in
      if negb (Qle_bool wait_time timeout)
      then ([poll], Raise TimeoutError)
      else
        let '(trace, r) :=
          wait_for_child_processes world self timeout wait_start fuel (S k) in
        (poll :: Sleep 2 :: trace, r)
  end.

(** The branch for [Event.FIT_END]. *)
Definition on_fit_end (world : World) (fuel : nat)
    (self : HuggingFaceCheckpointer) : list Effect * outcome () :=
  let timeout := 3600%Q in
  let wait_start := time_time world 0 in
  match wait_for_child_processes world self timeout wait_start fuel 0 with
  | (trace, Ok _) =>
    match temp_save_dir self with
    | Some dir => (trace ++ [Rmtree dir], Ok tt)
    | None => (trace, Ok tt)
    end
  | (trace, r) => (trace, r)
  end.

(** [self.last_checkpoint_batch != state.timestamp.batch]. *)
Definition marker_differs (marker : option Z) (b : Z) : bool :=
  match marker with
  | Some m => negb (m =? b)
  | None => true
  end.

(** The condition of the save branch of [run_event]. *)
Definition saves_now (self : HuggingFaceCheckpointer) (state : State)
    (fires : bool) : bool :=
  bool_decide (is_Some (get_elapsed_duration state))
  && fires
  && marker_differs (last_checkpoint_batch self) (batch (timestamp state)).

(** [run_event].  [fires] is what [self.check_interval(state, event)] returns
    at this event: the closure made by [create_interval_scheduler] keeps
    private state between calls, so its answer comes with the event.  Python's
    [and] asks for it only when the elapsed duration is there. *)
Definition run_event (world : World) (fuel : nat)
    (self : HuggingFaceCheckpointer) (event : Event) (state : State)
    (logger : Logger) (fires : bool)
  : list Effect * outcome (HuggingFaceCheckpointer * State) :=
  if saves_now self state fires then
    let '(trace, r) := _save_checkpoint world self state in
    (trace, (fun self => (self, state)) <$> r)
  else if Event_eqb event INIT then on_init self state logger
  else if Event_eqb event FIT_END then
    let '(trace, r) := on_fit_end world fuel self in
    (trace, (fun _ => (self, state)) <$> r)
  else ([], Ok (self, state)).

(** One event as the trainer delivers it. *)
Record Tick := {
  tick_event : Event;
  tick_state : State;
  tick_fires : bool;
}.

(** The callback over a sequence of events; an exception ends the run. *)
Fixpoint run_events (world : World) (fuel : nat) (logger : Logger)
    (self : HuggingFaceCheckpointer) (ticks : list Tick)
  : list Effect * outcome HuggingFaceCheckpointer :=
  match ticks with
  | [] => ([], Ok self)
  | t :: rest =>
    match run_event world fuel self (tick_event t) (tick_state t) logger
                    (tick_fires t) with
    | (trace, Ok (self, _)) =>
      let '(trace', r) := run_events world fuel logger self rest in
      (trace ++ trace', r)
    | (trace, Raise e) => (trace, Raise e)
    | (trace, OutOfFuel) => (trace, OutOfFuel)
    end
  end.

(** The batch indices for which a checkpoint was saved, in order. *)
Definition saved_batches (trace : list Effect) : list Z :=
  omap (fun e => match e with SaveCheckpoint b => Some b | _ => None end) trace.

(** Whether the save branch of [run_event] is asked for at a tick. *)
Definition triggered (t : Tick) : bool :=
  bool_decide (is_Some (get_elapsed_duration (tick_state t))) && tick_fires t.

Definition tick_batch (t : Tick) : Z := batch (timestamp (tick_state t)).

(** The effect of the poll number [k], and the effects of the first [n]
    unsuccessful polls from poll [k] on, each followed by its sleep. *)
Definition poll_effect (world : World) (self : HuggingFaceCheckpointer)
    (k : nat) : Effect :=
  AllReduce (if existsb (is_alive world k) (child_processes self) then 1 else 0).

Definition waiting_polls (world : World) (self : HuggingFaceCheckpointer)
    (k n : nat) : list Effect :=
  flat_map (fun j => [poll_effect world self j; Sleep 2]) (seq k n).

(** The time waited, as measured after the poll number [k]. *)
Definition wait_time (world : World) (k : nat) : Q :=
  (time_time world (S k) - time_time world 0)%Q.

(** No registration process is running at the poll number [k]: no child
    process of this rank is alive, and no other rank reports a live one
    (a rank contributes 1 for a live process and 0 otherwise). *)
Definition no_process_alive (world : World) (self : HuggingFaceCheckpointer)
    (k : nat) : Prop :=
  Forall (fun p => is_alive world k p = false) (child_processes self) ∧
  Forall (fun y => y <= 0) (peers world k).

(** How a wait ends after [n] unsuccessful polls that each stayed within the
    timeout: with every process finished at the poll number [n], and then
    the temporary directory is removed; or with a process still running and
    more than 3600 seconds waited; or cut off by the fuel. *)
Inductive wait_ending (world : World) (self : HuggingFaceCheckpointer)
    (fuel n : nat) : list Effect → outcome () → Prop :=
| wait_done :
    (n < fuel)%nat →
    no_process_alive world self n →
    wait_ending world self fuel n
      (waiting_polls world self 0 n ++ [poll_effect world self n]
       ++ match temp_save_dir self with Some d => [Rmtree d] | None => [] end)
      (Ok tt)
| wait_timed_out :
    (n < fuel)%nat →
    ¬ no_process_alive world self n →
    (3600 < wait_time world n)%Q →
    wait_ending world self fuel n
      (waiting_polls world self 0 n ++ [poll_effect world self n])
      (Raise TimeoutError)
| wait_cut_off :
    n = fuel →
    wait_ending world self fuel n (waiting_polls world self 0 n) OutOfFuel.

(** [time.sleep(2)] lets at least two seconds pass between two readings of
    the clock, and the clock does not run backwards. *)
Definition clock_advances (world : World) : Prop :=
  (time_time world 0 <= time_time world 1)%Q ∧
  ∀ k, (time_time world (S k) + 2 <= time_time world (S (S k)))%Q.

(** The batch index never decreases along the events: every tick carries a
    batch index at most that of every later tick. *)
Definition batches_never_decrease (ticks : list Tick) : Prop :=
  StronglySorted Z.le (map tick_batch ticks).

(** ** The state dict hook of [_save_checkpoint] *)

Inductive Device := CUDA | CPU | META.

(** A [torch.Tensor]: its element type, where it lives, and its elements. *)
Record Tensor := {
  tensor_dtype : Dtype;
  tensor_device : Device;
  tensor_elements : list Q;
}.

(** The values of a state dict ([dict[str, Any]]): a [DTensor], given with
    the tensor that its [full_tensor()] gathers; a plain tensor; [None]; or
    an object that is no tensor, such as the [io.BytesIO] extra state of
    Transformer Engine modules. *)
Inductive StateDictValue :=
| IsDTensor (full_tensor : Tensor)
| IsTensor (t : Tensor)
| IsNone
| IsObject (type_name : string).

(** [t.cpu()] and [t.to(dtype=d)].  [cast d q] is the element [q] rounded to
    the type [d]; the rounding itself is torch's. *)
Definition Tensor_cpu (t : Tensor) : Tensor :=
  {| tensor_dtype := tensor_dtype t;
     tensor_device := CPU;
     tensor_elements := tensor_elements t |}.

Definition Tensor_to (cast : Dtype -> Q -> Q) (d : Dtype) (t : Tensor) : Tensor :=
  {| tensor_dtype := d;
     tensor_device := tensor_device t;
     tensor_elements := map (cast d) (tensor_elements t) |}.

(** One turn of [for fqn in state_dict.keys()]. *)
Definition tensor_hook_step (cast : Dtype -> Q -> Q) (world : World)
    (self : HuggingFaceCheckpointer) (cpu_offload : bool)
    (state_dict : gmap string StateDictValue) (fqn : string)
  : gmap string StateDictValue :=
  match state_dict !! fqn with
  | None => state_dict
  | Some tensor =>
    let state_dict :=
      match tensor with
      | IsDTensor full =>
        if get_global_rank world =? 0
        then <[fqn := IsTensor (if cpu_offload then Tensor_cpu full else full)]>
               state_dict
        else <[fqn := IsNone]> state_dict
      | _ => state_dict
      end in
    match state_dict !! fqn with
    | Some (IsTensor t) =>
      <[fqn := IsTensor (Tensor_to cast (dtype self) t)]> state_dict
    | Some (IsDTensor full) =>
      <[fqn := IsDTensor (Tensor_to cast (dtype self) full)]> state_dict
    | _ => state_dict
    end
  end.

(** [tensor_hook(module, state_dict, prefix, *args)], with the
    [cpu_offload = True] of its enclosing function. *)
Definition tensor_hook (cast : Dtype -> Q -> Q) (world : World)
    (self : HuggingFaceCheckpointer)
    (state_dict : gmap string StateDictValue) : gmap string StateDictValue :=
  let cpu_offload := true in
  let state_dict :=
    foldl (tensor_hook_step cast world self cpu_offload) state_dict
          (map_to_list state_dict).*1 in
  if negb (get_global_rank world =? 0) then ∅ else state_dict.

(** A value is a materialised tensor of type [d]: a plain tensor, no
    [DTensor], with that element type. *)
Definition materialized_as (d : Dtype) (v : StateDictValue) : Prop :=
  ∃ t, v = IsTensor t ∧ tensor_dtype t = d.

(** A value is a tensor of either kind ([isinstance(v, torch.Tensor)]). *)
Definition is_torch_Tensor (v : StateDictValue) : bool :=
  match v with
  | IsDTensor _ | IsTensor _ => true
  | IsNone | IsObject _ => false
  end.

(** ** Stamping the pretrained model name *)

(** A [PeftConfig], the base model of a PEFT model, and the new model
    instance, as far as the stamping goes. *)
Record PeftConfig := {
  peft_type : string;
  base_model_name_or_path : pyval;
}.

Record BaseModel := { base_name_or_path : pyval }.

Record ModelInstance := {
  name_or_path : pyval;
  base_model : BaseModel;
  peft_config : gmap string PeftConfig;
}.

Definition set_base_model_name_or_path (v : pyval) (c : PeftConfig) : PeftConfig :=
  {| peft_type := peft_type c; base_model_name_or_path := v |}.

(** One turn of [for k in new_model_instance.peft_config.keys()]. *)
Definition stamp_step (name : pyval) (configs : gmap string PeftConfig)
    (k : string) : gmap string PeftConfig :=
  match configs !! k with
  | Some c => <[k := set_base_model_name_or_path name c]> configs
  | None => configs
  end.

(** The block under "Ensure that the pretrained model name is correctly set
    on the saved HF checkpoint". *)
Definition stamp_pretrained_model_name (self : HuggingFaceCheckpointer)
    (new_model_instance : ModelInstance) : ModelInstance :=
  match pretrained_model_name self with
  | PNone => new_model_instance
  | name =>
    let m := {| name_or_path := name;
                base_model := base_model new_model_instance;
                peft_config := peft_config new_model_instance |} in
    if using_peft self then
      {| name_or_path := name_or_path m;
         base_model := {| base_name_or_path := name |};
         peft_config :=
           foldl (stamp_step name) (peft_config m)
                 (map_to_list (peft_config m)).*1 |}
    else m
  end.

(** The end of the rehydration in [_save_checkpoint]: the hook
    [transform_model_and_tokenizer], which a subclass may override, and then
    the stamping. *)
Definition finish_rehydration (self : HuggingFaceCheckpointer)
    (transform_model : ModelInstance -> ModelInstance)
    (new_model_instance : ModelInstance) : ModelInstance :=
  stamp_pretrained_model_name self (transform_model new_model_instance).

(** The default [transform_model_and_tokenizer], on the model. *)
Definition transform_model_and_tokenizer (m : ModelInstance) : ModelInstance := m.

(** What the hook leaves in place of one value. *)
Definition hooked_value (cast : Dtype -> Q -> Q) (world : World)
    (self : HuggingFaceCheckpointer) (v : StateDictValue) : StateDictValue :=
  match v with
  | IsDTensor full =>
    if get_global_rank world =? 0
    then IsTensor (Tensor_to cast (dtype self) (Tensor_cpu full))
    else IsNone
  | IsTensor t => IsTensor (Tensor_to cast (dtype self) t)
  | IsNone => IsNone
  | IsObject n => IsObject n
  end.

(** ** [transform_config] *)

(** Config objects live in a store, one per address.  An object is given by
    its attributes; the dictionaries and lists under an attribute belong to
    that object alone, so the value of an attribute is a tree.
    [copy.deepcopy] makes a new object with equal attributes at an address
    that was not in use. *)
Definition deepcopy (store : gmap nat (gmap string pyval)) (obj : nat)
  : outcome (gmap nat (gmap string pyval) * nat) :=
  match store !! obj with
  | Some attributes =>
    let copied := fresh (dom store) in
    Ok (<[copied := attributes]> store, copied)
  | None => Raise (AttributeError "no such object")
  end.

(** [config.model_type]; the class attribute of [PretrainedConfig] is the
    empty string. *)
Definition model_type (attributes : gmap string pyval) : pyval :=
  match attributes !! "model_type" with
  | Some v => v
  | None => PStr ""
  end.

Definition is_str (s : string) (v : pyval) : bool :=
  match v with
  | PStr s' => String.eqb s' s
  | _ => false
  end.

(** [substring in s] for two strings. *)
Fixpoint str_contains (needle s : string) : bool :=
  String.prefix needle s
  || match s with
     | EmptyString => false
     | String _ rest => str_contains needle rest
     end.

(** [key in v]. *)
Definition value_contains (key : string) (v : pyval) : outcome bool :=
  match v with
  | PDict d => Ok (bool_decide (is_Some (d !! key)))
  | PList l => Ok (existsb (is_str key) l)
  | PStr s => Ok (str_contains key s)
  | PNone | PBool _ | PInt _ => Raise (TypeError "argument is not iterable")
  end.

(** [v[key] = x] for a string [key]. *)
Definition value_setitem (key : string) (x : pyval) (v : pyval) : outcome pyval :=
  match v with
  | PDict d => Ok (PDict (<[key := x]> d))
  | PList _ => Raise (TypeError "list indices must be integers or slices")
  | PNone | PBool _ | PInt _ | PStr _ =>
    Raise (TypeError "object does not support item assignment")
  end.

(** [config.attr[key] = x]: the attribute is read, the item is set in it. *)
Definition setitem_in_attribute (attr key : string) (x : pyval)
    (attributes : gmap string pyval) : outcome (gmap string pyval) :=
  match attributes !! attr with
  | Some v => v' ← value_setitem key x v; Ok (<[attr := v']> attributes)
  | None => Raise (AttributeError attr)
  end.

(** What [transform_config] does to the attributes of the copy. *)
Definition transform_copied_config (copied_config : gmap string pyval)
  : outcome (gmap string pyval) :=
  if is_str "mpt" (model_type copied_config) then
    copied_config ←
      setitem_in_attribute "attn_config" "attn_impl" (PStr "torch") copied_config;
    let copied_config := <["init_device" := PStr "cpu"]> copied_config in
    has_moe ←
      value_contains "moe_world_size"
        (match copied_config !! "ffn_config" with
         | Some v => v
         | None => PDict ∅
         end);
    if (has_moe : bool)
    then setitem_in_attribute "ffn_config" "moe_world_size" (PInt 1) copied_config
    else Ok copied_config
  else Ok copied_config.

(** [transform_config(self, original_config)]: the store after the call and
    the address of the config that is returned. *)
Definition transform_config (store : gmap nat (gmap string pyval))
    (original_config : nat)
  : outcome (gmap nat (gmap string pyval) * nat) :=
  '(store, copied_config) ← deepcopy store original_config;
  match store !! copied_config with
  | Some attributes =>
    attributes ← transform_copied_config attributes;
    Ok (<[copied_config := attributes]> store, copied_config)
  | None => Raise (AttributeError "no such object")
  end.

(** The item under [key] of the dictionary under the attribute [attr]. *)
Definition attribute_item (attr key : string) (attributes : gmap string pyval)
  : option pyval :=
  match attributes !! attr with
  | Some (PDict d) => d !! key
  | _ => None
  end.

(** ** [_LICENSE_FILE_PATTERN] and [_maybe_get_license_filename] *)

(** A file name is a Python [str]: a list of code points. *)
Definition codepoints (s : string) : list N :=
  map Ascii.N_of_ascii (String.list_ascii_of_string s).

(** The regular expressions that the pattern needs. *)
Inductive regex :=
| Lit (c : N)
| Range (lo hi : N)
| Seq (r1 r2 : regex)
| Alt (r1 r2 : regex)
| Plus (r : regex)
| Dollar.

(** The lower-case mapping that [re] applies under [re.IGNORECASE] to a
    character of the subject.  It is given here on the code points that it
    sends to an ASCII letter: the ASCII capitals, U+0130 (capital I with dot
    above) and U+212A (the Kelvin sign).  No other code point has an image
    that the pattern can match, so the identity stands for the rest. *)
Definition unicode_tolower (c : N) : N :=
  if (65 <=? c)%N && (c <=? 90)%N then (c + 32)%N
  else if (c =? 304)%N then 105%N
  else if (c =? 8490)%N then 107%N
  else c.

(** The characters that [re] treats as equal to a lower-case character
    although lower-casing does not identify them: dotless i (U+0131) with
    [i], long s (U+017F) with [s]. *)
Definition ignorecase_fixes (lo : N) : list N :=
  if (lo =? 105)%N then [305%N]
  else if (lo =? 115)%N then [383%N]
  else [].

(** A literal of the pattern against a character of the subject.  The
    literals of the pattern are lower-case ASCII letters and the dot, and
    for those this is the test of [re] under [re.IGNORECASE]. *)
Definition lit_matches (p x : N) : bool :=
  let lo := unicode_tolower p in
  existsb (N.eqb (unicode_tolower x)) (lo :: ignorecase_fixes lo).

(** A range of lower-case ASCII letters of the pattern, as [a-z] is,
    against a character of the subject. *)
Definition range_matches (lo hi x : N) : bool :=
  let y := unicode_tolower x in
  ((lo <=? y)%N && (y <=? hi)%N)
  || ((lo <=? 105)%N && (105 <=? hi)%N && (y =? 305)%N)
  || ((lo <=? 115)%N && (115 <=? hi)%N && (y =? 383)%N).

(** [$] without [re.MULTILINE]: at the end of the string, or just before a
    newline that ends the string. *)
Definition at_dollar (rest : list N) : bool :=
  match rest with
  | [] => true
  | [10%N] => true
  | _ => false
  end.

(** Backtracking matcher: [matches_at r s k] tries [r] at the head of [s]
    and hands what is left of [s] to [k].  A turn of [Plus] goes on only
    after a turn that consumed something. *)
Fixpoint matches_at (r : regex) (s : list N) (k : list N -> bool) : bool :=
  match r with
  | Lit c =>
    match s with
    | x :: rest => lit_matches c x && k rest
    | [] => false
    end
  | Range lo hi =>
    match s with
    | x :: rest => range_matches lo hi x && k rest
    | [] => false
    end
  | Seq r1 r2 => matches_at r1 s (fun rest => matches_at r2 rest k)
  | Alt r1 r2 => matches_at r1 s k || matches_at r2 s k
  | Plus r1 =>
    (fix turns (fuel : nat) (s : list N) : bool :=
       matches_at r1 s (fun rest =>
         k rest
         || match fuel with
            | O => false
            | S fuel => (length rest <? length s)%nat && turns fuel rest
            end)) (length s) s
  | Dollar => at_dollar s && k s
  end.

(** [pattern.search(s)]: a match that starts at some position of [s]. *)
Fixpoint search (r : regex) (s : list N) : bool :=
  matches_at r s (fun _ => true)
  || match s with
     | [] => false
     | _ :: rest => search r rest
     end.

(** A word of the pattern, literal by literal. *)
Fixpoint literal (word : list N) (r : regex) : regex :=
  match word with
  | [] => r
  | c :: word => Seq (Lit c) (literal word r)
  end.

(** [re.compile(r'license(\.[a-z]+|$)', re.IGNORECASE)]. *)
Definition _LICENSE_FILE_PATTERN : regex :=
  literal (codepoints "license")
          (Alt (Seq (Lit 46) (Plus (Range 97 122))) Dollar).

(** [next(file for file in listing if pattern.search(file))], with the
    [StopIteration] caught as in the source. *)
Definition first_license (listing : list (list N)) : option (list N) :=
  List.find (search _LICENSE_FILE_PATTERN) listing.

(** [_maybe_get_license_filename(local_dir, pretrained_model_name)].
    [listing] is [os.listdir(local_dir)] at the start; [rewritten file] is
    the listing after the license file [file] was removed and the license
    information of the pretrained model was written. *)
Definition _maybe_get_license_filename (listing : list (list N))
    (rewritten : list N -> list (list N))
    (pretrained_model_name : option string) : option (list N) :=
  match first_license listing with
  | Some license_filename =>
    match pretrained_model_name with
    | Some _ => first_license (rewritten license_filename)
    | None => Some license_filename
    end
  | None => None
  end.

(** Two characters are the same letter when case is ignored: equal, or the
    capital of the same ASCII letter, or one of the four characters that
    [re] puts with [i], [s] and [k]. *)
Definition same_letter (p x : N) : Prop :=
  x = p ∨ (x + 32 = p)%N
  ∨ (p = 105%N ∧ (x = 304%N ∨ x = 305%N))
  ∨ (p = 115%N ∧ x = 383%N)
  ∨ (p = 107%N ∧ x = 8490%N).

(** A letter, when case is ignored: a lower-case ASCII letter or the same
    letter as one. *)
Definition is_letter (x : N) : Prop :=
  ∃ p, (97 <= p <= 122)%N ∧ same_letter p x.

(** A name as the pattern finds it: somewhere in the name stands "license",
    case ignored, followed by the end of the name (or by a newline that ends
    it), or by a dot and a letter. *)
Definition license_name (name : list N) : Prop :=
  ∃ before word after,
    name = before ++ word ++ after ∧
    Forall2 same_letter (codepoints "license") word ∧
    (after = [] ∨ after = [10%N]
     ∨ ∃ x rest, after = 46%N :: x :: rest ∧ is_letter x).

(** A name as the specification words it: "license", case ignored, with no
    extension or with any extension. *)
Definition license_with_any_extension (name : list N) : Prop :=
  ∃ word extension,
    Forall2 same_letter (codepoints "license") word ∧
    (name = word ∨ (extension ≠ [] ∧ name = word ++ 46%N :: extension)).

(** ** Concrete values *)

(** Collaborators for the examples: local paths, and the one time string
    that the examples use. *)
Definition example_imports : Imports :=
  {| parse_uri := fun s => ("", "", s);
     from_timestring := fun s =>
       if String.eqb s "1dur" then Ok {| value := 1; unit := DURATION |}
       else Raise (ValueError "invalid time string");
     maybe_create_remote_uploader_downloader_from_uri := fun _ => None |}.

(** [HuggingFaceCheckpointer("out", "1dur")] with a registered model name. *)
Definition example_checkpointer : HuggingFaceCheckpointer :=
  {| save_dir_format_str := "out";
     overwrite := true;
     precision := "float32";
     dtype := float32;
     flatten_imports := ["llmfoundry"];
     using_peft := false;
     mlflow_registered_model_name := Some "my-model";
     mlflow_logging_config :=
       <["metadata" := PDict ∅]>
         (<["task" := PStr "llm/v1/completions"]>
            {[ "input_example" :=
               PDict {[ "prompt" := PList [PStr "What is Machine Learning?"] ]} ]});
     pretrained_model_name := PNone;
     huggingface_folder_name_fstr := "huggingface/ba{batch}";
     save_interval := {| value := 1; unit := DURATION |};
     remote_ud := None;
     last_checkpoint_batch := None;
     mlflow_loggers := [];
     child_processes := [];
     temp_save_dir := None |}.

(** A state of a run of three epochs of ten batches each. *)
Definition example_state (elapsed : option Q) (ts : Timestamp) : State :=
  {| get_elapsed_duration := elapsed;
     max_duration := Some {| value := 3; unit := EPOCH |};
     dataloader_len := Some 10;
     timestamp := ts;
     model := IsHuggingFaceModel {| hf_using_peft := false;
                                    hf_model_is_fsdp := false |};
     callbacks := [] |}.

(** Rank 0; a clock that shows [2 n] seconds at its reading number [n]; one
    process, 7, that is alive for the first two polls; no other rank. *)
Definition example_world : World :=
  {| get_global_rank := 0;
     time_time := fun n => inject_Z (2 * Z.of_nat n);
     is_alive := fun k p => (k <? 2)%nat && (p =? 7)%nat;
     peers := fun _ => [];
     mkdtemp := "/tmp/tmpdir";
     format_name_with_dist_and_time := fun s _ => s;
     new_process := fun i => i |}.

Definition example_logger : Logger :=
  {| destinations := [OtherLogger "wandb"] |}.

(** A tick at which the scheduler fires, at batch [b] of the run. *)
Definition firing_tick (event : Event) (b : Z) : Tick :=
  {| tick_event := event;
     tick_state :=
       example_state (Some (inject_Z b / 30)%Q)
                     {| epoch := b / 10; batch := b; batch_in_epoch := b mod 10 |};
     tick_fires := true |}.

(** The same callback for a PEFT model, with the pretrained model name given
    in the metadata. *)
Definition example_peft_checkpointer : HuggingFaceCheckpointer :=
  {| save_dir_format_str := "out";
     overwrite := true;
     precision := "bfloat16";
     dtype := bfloat16;
     flatten_imports := ["llmfoundry"];
     using_peft := true;
     mlflow_registered_model_name := Some "my-model";
     mlflow_logging_config :=
       <["metadata" := PDict {[ "pretrained_model_name" := PStr "mosaicml/mpt-7b" ]}]>
         (<["task" := PStr "llm/v1/completions"]>
            {[ "input_example" :=
               PDict {[ "prompt" := PList [PStr "What is Machine Learning?"] ]} ]});
     pretrained_model_name := PStr "mosaicml/mpt-7b";
     huggingface_folder_name_fstr := "huggingface/ba{batch}";
     save_interval := {| value := 1; unit := DURATION |};
     remote_ud := None;
     last_checkpoint_batch := None;
     mlflow_loggers := [];
     child_processes := [];
     temp_save_dir := None |}.

(** A new PEFT model instance that still carries local paths. *)
Definition example_model_instance : ModelInstance :=
  {| name_or_path := PStr "/tmp/local-checkpoint";
     base_model := {| base_name_or_path := PStr "/tmp/local-checkpoint" |};
     peft_config :=
       <["default" := {| peft_type := "LORA";
                         base_model_name_or_path := PStr "/tmp/local-checkpoint" |}]>
         {[ "second" := {| peft_type := "LORA";
                           base_model_name_or_path := PNone |} ]} |}.

(** A rounding for the examples: no rounding at all. *)
Definition example_cast (d : Dtype) (q : Q) : Q := q.

(** A state dict with a sharded weight, a plain buffer and the extra state
    of a Transformer Engine module. *)
Definition example_state_dict : gmap string StateDictValue :=
  <["model.wte.weight" :=
      IsDTensor {| tensor_dtype := bfloat16; tensor_device := CUDA;
                   tensor_elements := [1; 2]%Q |}]>
    (<["model.mask" :=
         IsTensor {| tensor_dtype := uint8; tensor_device := CUDA;
                     tensor_elements := [0; 1]%Q |}]>
       {[ "model.fc._extra_state" := IsObject "io.BytesIO" ]}).

(** An MPT config that asks for flash attention on the GPU, and a config of
    another model family; a store that holds both. *)
Definition example_mpt_config : gmap string pyval :=
  <["model_type" := PStr "mpt"]>
    (<["attn_config" := PDict {[ "attn_impl" := PStr "flash" ]}]>
       (<["init_device" := PStr "cuda"]>
          {[ "ffn_config" := PDict (<["ffn_type" := PStr "mb_moe"]>
                                      {[ "moe_world_size" := PInt 8 ]}) ]})).

Definition example_llama_config : gmap string pyval :=
  <["model_type" := PStr "llama"]> {[ "hidden_size" := PInt 4096 ]}.

Definition example_store : gmap nat (gmap string pyval) :=
  <[0%nat := example_mpt_config]> {[ 1%nat := example_llama_config ]}.

(** [HuggingFaceCheckpointer("out", "10ba")]: the callback of the example
    with an interval of ten batches. *)
Definition example_batch_checkpointer : HuggingFaceCheckpointer :=
  {| save_dir_format_str := "out";
     overwrite := true;
     precision := "float32";
     dtype := float32;
     flatten_imports := ["llmfoundry"];
     using_peft := false;
     mlflow_registered_model_name := Some "my-model";
     mlflow_logging_config := mlflow_logging_config example_checkpointer;
     pretrained_model_name := PNone;
     huggingface_folder_name_fstr := "huggingface/ba{batch}";
     save_interval := {| value := 10; unit := BATCH |};
     remote_ud := None;
     last_checkpoint_batch := None;
     mlflow_loggers := [];
     child_processes := [];
     temp_save_dir := None |}.

(** The callback of the example after a checkpoint of the last batch that
    went to a remote destination: process 7 registers the model from the
    temporary directory. *)
Definition example_waiting_checkpointer : HuggingFaceCheckpointer :=
  {| save_dir_format_str := "bucket/out";
     overwrite := true;
     precision := "float32";
     dtype := float32;
     flatten_imports := ["llmfoundry"];
     using_peft := false;
     mlflow_registered_model_name := Some "my-model";
     mlflow_logging_config := mlflow_logging_config example_checkpointer;
     pretrained_model_name := PNone;
     huggingface_folder_name_fstr := "huggingface/ba{batch}";
     save_interval := {| value := 1; unit := DURATION |};
     remote_ud := Some (RemoteUploaderDownloaderCallback "s3://bucket/out");
     last_checkpoint_batch := Some 30;
     mlflow_loggers := [MLFlowLogger "run-1"];
     child_processes := [7%nat];
     temp_save_dir := Some "/tmp/tmpdir" |}.

(** A world in which process 7 never ends. *)
Definition example_stuck_world : World :=
  {| get_global_rank := 0;
     time_time := fun n => inject_Z (2 * Z.of_nat n);
     is_alive := fun _ p => (p =? 7)%nat;
     peers := fun _ => [];
     mkdtemp := "/tmp/tmpdir";
     format_name_with_dist_and_time := fun s _ => s;
     new_process := fun i => i |}.

(** ** Reading a trace *)

(** The processes started in a trace, in order. *)
Definition started_processes (trace : list Effect) : list nat :=
  omap (fun e => match e with StartProcess p => Some p | _ => None end) trace.

(** The directories removed in a trace, in order. *)
Definition removed_dirs (trace : list Effect) : list string :=
  omap (fun e => match e with Rmtree d => Some d | _ => None end) trace.

(** Whether [_save_checkpoint] goes on to the registry: on rank 0, with a
    registered model name that is not empty, at the last batch. *)
Definition registers (world : World) (self : HuggingFaceCheckpointer)
    (state : State) : Prop :=
  get_global_rank world = 0 ∧
  truthy_name (mlflow_registered_model_name self) = true ∧
  _is_last_batch self state = Ok true.

(** The callback of the example with a remote destination, after an [INIT]
    that found one MLflow logger. *)
Definition example_remote_checkpointer : HuggingFaceCheckpointer :=
  {| save_dir_format_str := "bucket/out";
     overwrite := true;
     precision := "float32";
     dtype := float32;
     flatten_imports := ["llmfoundry"];
     using_peft := false;
     mlflow_registered_model_name := Some "my-model";
     mlflow_logging_config := mlflow_logging_config example_checkpointer;
     pretrained_model_name := PNone;
     huggingface_folder_name_fstr := "huggingface/ba{batch}";
     save_interval := {| value := 1; unit := DURATION |};
     remote_ud := Some (RemoteUploaderDownloaderCallback "s3://bucket/out");
     last_checkpoint_batch := None;
     mlflow_loggers := [MLFlowLogger "run-1"];
     child_processes := [];
     temp_save_dir := None |}.

(** The [remote_ud] of a callback as a list of callbacks. *)
Definition remote_ud_callbacks (self : HuggingFaceCheckpointer) : list Callback :=
  match remote_ud self with
  | Some ud => [ud]
  | None => []
  end.

(** The callback of the example with the empty string for a registered
    model name. *)
Definition example_empty_name_checkpointer : HuggingFaceCheckpointer :=
  {| save_dir_format_str := "out";
     overwrite := true;
     precision := "float32";
     dtype := float32;
     flatten_imports := ["llmfoundry"];
     using_peft := false;
     mlflow_registered_model_name := Some "";
     mlflow_logging_config := mlflow_logging_config example_checkpointer;
     pretrained_model_name := PNone;
     huggingface_folder_name_fstr := "huggingface/ba{batch}";
     save_interval := {| value := 1; unit := DURATION |};
     remote_ud := None;
     last_checkpoint_batch := None;
     mlflow_loggers := [MLFlowLogger "run-1"];
     child_processes := [];
     temp_save_dir := None |}.

(** ** Reading [transform_config] *)

(** An [ffn_config] that [transform_config] gets through: absent, a
    dictionary, or a list or string in which ["moe_world_size"] is not
    found. *)
Definition ffn_config_accepted (attributes : gmap string pyval) : Prop :=
  match attributes !! "ffn_config" with
  | None | Some (PDict _) => True
  | Some (PList l) => existsb (is_str "moe_world_size") l = false
  | Some (PStr s) => str_contains "moe_world_size" s = false
  | Some (PNone | PBool _ | PInt _) => False
  end.

(** ** Changing the case of a name *)

(** The ASCII capital of a code point, and its ASCII small letter. *)
Definition ascii_upper (x : N) : N :=
  if (97 <=? x)%N && (x <=? 122)%N then (x - 32)%N else x.

Definition ascii_lower (x : N) : N :=
  if (65 <=? x)%N && (x <=? 90)%N then (x + 32)%N else x.

(** ** Reading [__init__] *)

(** The two default input examples of [__init__]. *)
Definition default_prompt_example : pyval :=
  PDict {[ "prompt" := PList [PStr "What is Machine Learning?"] ]}.

Definition default_chat_example : pyval :=
  PDict {[ "messages" :=
           PList [PDict (<["role" := PStr "user"]>
                           {[ "content" := PStr "What is Machine Learning?" ]})] ]}.

(** A value is a string that ends with ["chat"]. *)
Definition ends_with_chat (v : pyval) : Prop :=
  ∃ s, v = PStr s ∧ str_endswith s "chat" = true.

(** The task of a config asks for the chat example: the task ends with
    ["chat"], or the metadata is a dictionary whose task does. *)
Definition asks_for_chat (task metadata : pyval) : Prop :=
  ends_with_chat task ∨
  ∃ d, metadata = PDict d ∧
       ends_with_chat (match d !! "task" with Some t => t | None => PStr "" end).

(** ** The arguments of [mlflow_logger.save_model] *)

(** [model_saving_kwargs] as [_save_checkpoint] builds it for one logger.
    [components] is the dictionary of the model and the tokenizer.
    [kwargs.update(config)] lets the entries of the config win. *)
Definition model_saving_kwargs (self : HuggingFaceCheckpointer)
    (local_save_path temp_save_dir : string) (components : pyval)
  : outcome (gmap string pyval) :=
  let kwargs : gmap string pyval := {[ "path" := PStr local_save_path ]} in
  kwargs ←
    (if using_peft self then
       let kwargs := <["flavor" := PStr "peft"]> kwargs in
       let kwargs := <["save_pretrained_dir" := PStr temp_save_dir]> kwargs in
       match mlflow_logging_config self !! "metadata" with
       | Some metadata => Ok (<["metadata" := metadata]> kwargs)
       | None => Raise (KeyError "metadata")
       end
     else
       let kwargs := <["flavor" := PStr "transformers"]> kwargs in
       let kwargs := <["transformers_model" := components]> kwargs in
       Ok (mlflow_logging_config self ∪ kwargs));
  Ok (<["pip_requirements" := PList [PStr "transformers"; PStr "torch"]]> kwargs).
(* ================================================================== *)
(** * Properties *)
(* ================================================================== *)

(** ** Helper lemmas *)

Lemma TimeUnit_eqb_eq (u v : TimeUnit) : TimeUnit_eqb u v = true ↔ u = v.
Proof. destruct u, v; simpl; split; intros H; try reflexivity; discriminate H. Qed.

Lemma py_mod_zero_iff (a b : Z) :
  py_mod a b = Ok 0 ↔ (r ← py_mod a b; Ok (r =? 0)) = Ok true.
Proof.
  unfold py_mod. destruct (b =? 0) eqn:Hb; simpl.
  - split; discriminate.
  - split.
    + intros [= ->]. reflexivity.
    + intros [= H]. apply Z.eqb_eq in H. by rewrite H.
Qed.

(** The maximum over the ranks is zero exactly when every rank gives zero. *)
Lemma all_reduce_max_ge x others : x <= all_reduce_max x others.
Proof.
  unfold all_reduce_max. induction others as [|y others IH]; simpl; lia.
Qed.

Lemma all_reduce_max_zero x others :
  0 <= x →
  all_reduce_max x others = 0 ↔ x = 0 ∧ Forall (fun y => y <= 0) others.
Proof.
  intros Hx. unfold all_reduce_max.
  induction others as [|y others IH]; simpl.
  - split; [intros ->; by split | by intros [-> _]].
  - pose proof (all_reduce_max_ge x others) as Hge.
    unfold all_reduce_max in Hge. rewrite Forall_cons. split.
    + intros Hmax. assert (foldr Z.max x others = 0) as H0 by lia.
      apply IH in H0 as [-> Hall]. split_and!; [done | lia | done].
    + intros (-> & Hy & Hall).
      assert (foldr Z.max 0 others = 0) as H0 by (apply IH; by split).
      lia.
Qed.

(** ** The last batch *)

Section IsLastBatch.
Variable self : HuggingFaceCheckpointer.
Variable state : State.

Lemma elapsed_at_least_one_spec :
  elapsed_at_least_one state ↔
  match get_elapsed_duration state with
  | Some e => Qle_bool 1 e
  | None => false
  end = true.
Proof.
  unfold elapsed_at_least_one. destruct (get_elapsed_duration state) as [e|].
  - rewrite Qle_bool_iff. split.
    + intros (e' & [= <-] & H). exact H.
    + intros H. eauto.
  - split; [intros (e' & [=] & _) | discriminate].
Qed.

Lemma batch_interval_alignment_spec md :
  max_duration state = Some md →
  batch_interval_alignment self state ↔
  TimeUnit_eqb (unit (save_interval self)) BATCH
  && (TimeUnit_eqb (unit md) EPOCH &&
      Qeq_bool (inject_Z (epoch (timestamp state))) (value md - 1))
  && py_eq_opt (dataloader_len state) (batch_in_epoch (timestamp state)) = true.
Proof.
  intros Hmd. unfold batch_interval_alignment.
  rewrite !andb_true_iff, !TimeUnit_eqb_eq, Qeq_bool_iff. split.
  - intros (Hu & md' & Hmd' & Hue & Hq & Hlen).
    rewrite Hmd in Hmd'. injection Hmd' as <-.
    repeat split; try assumption.
    rewrite Hlen. simpl. apply Z.eqb_refl.
  - intros ((Hu & Hue & Hq) & Hlen). split; [exact Hu|].
    exists md. repeat split; try assumption.
    unfold py_eq_opt in Hlen. destruct (dataloader_len state) as [n|]; [|discriminate].
    apply Z.eqb_eq in Hlen. by rewrite Hlen.
Qed.

Lemma is_last_batch_iff :
  _is_last_batch self state = Ok true ↔
  elapsed_at_least_one state ∨ batch_interval_alignment self state
  ∨ one_duration_alignment self state.
Proof.
  rewrite elapsed_at_least_one_spec. unfold _is_last_batch. cbv zeta.
  destruct (match get_elapsed_duration state with
            | Some e => Qle_bool 1 e | None => false end) eqn:Ha.
  { split; [by left | reflexivity]. }
  destruct (max_duration state) as [md|] eqn:Hmd.
  2:{ split; [discriminate|].
      intros [H | [(_ & md & Hmd' & _) | (_ & _ & md & len & Hmd' & _)]];
        [discriminate H | rewrite Hmd in Hmd'; discriminate Hmd' ..]. }
  rewrite (batch_interval_alignment_spec md Hmd).
  destruct (TimeUnit_eqb (unit (save_interval self)) BATCH
            && (TimeUnit_eqb (unit md) EPOCH &&
                Qeq_bool (inject_Z (epoch (timestamp state))) (value md - 1))
            && py_eq_opt (dataloader_len state) (batch_in_epoch (timestamp state)))
    eqn:Hb.
  { split; [by right; left | reflexivity]. }
  unfold one_duration_alignment.
  destruct (TimeUnit_eqb (unit (save_interval self)) DURATION
            && Qeq_bool (value (save_interval self)) 1
            && TimeUnit_eqb (unit md) EPOCH) eqn:Hc.
  - apply andb_true_iff in Hc as [Hc Hue]. apply andb_true_iff in Hc as [Hu Hv].
    apply TimeUnit_eqb_eq in Hu, Hue. apply Qeq_bool_iff in Hv.
    destruct (dataloader_len state) as [len|] eqn:Hlen.
    + rewrite <- py_mod_zero_iff. split.
      * intros H. right; right. repeat split; try assumption.
        exists md, len. repeat split; assumption.
      * intros [H | [H | (_ & _ & md' & len' & Hmd' & _ & Hlen' & H)]];
          [discriminate H .. |].
        simplify_eq. exact H.
    + split; [discriminate|].
      intros [H | [H | (_ & _ & md' & len' & _ & _ & [=] & _)]]; discriminate H.
  - split; [discriminate|].
    intros [H | [H | (Hu & Hv & md' & len' & Hmd' & Hue & _)]];
      [discriminate H .. |].
    simplify_eq. apply TimeUnit_eqb_eq in Hu, Hue. apply Qeq_bool_iff in Hv.
    rewrite Hu, Hue, Hv in Hc. discriminate Hc.
Qed.

End IsLastBatch.

(** How [_is_last_batch] answers when the elapsed fraction is below 1.0, the
    interval is in batches and the epoch counter is not one below the
    maximum: the answer is [False], wherever the batch counter stands. *)
Lemma is_last_batch_other_epoch self state md :
  ¬ elapsed_at_least_one state →
  unit (save_interval self) = BATCH →
  max_duration state = Some md →
  ¬ (inject_Z (epoch (timestamp state)) == value md - 1)%Q →
  _is_last_batch self state = Ok false.
Proof.
  intros Ha Hu Hmd Hepoch.
  rewrite elapsed_at_least_one_spec in Ha. unfold _is_last_batch. cbv zeta.
  destruct (match get_elapsed_duration state with
            | Some e => Qle_bool 1 e | None => false end); [done|].
  rewrite Hmd, Hu. simpl.
  destruct (Qeq_bool (inject_Z (epoch (timestamp state))) (value md - 1)) eqn:Hq.
  { apply Qeq_bool_iff in Hq. done. }
  by rewrite andb_false_r.
Qed.

(** C1 (amended).  [_is_last_batch] returns [True] exactly in the cases (a),
    (b) and (c), where (b) is the last batch of the final epoch: the epoch
    counter of the timestamp, which counts the completed epochs, is one below
    the maximum, and the batch counter of the epoch has reached the length of
    the dataloader.  With an interval in batches and the elapsed fraction
    below 1.0 it returns [False] during every other epoch, so also at the
    last batch of the second-to-last epoch, where the counter is two below
    the maximum.  With [max_duration = 3ep], ten batches per epoch and
    [save_interval = 1dur] it returns, and returns [True] exactly when the
    batch index is a multiple of 30, on every state of that run: there the
    elapsed fraction is at least 1.0 at batch 30 only. *)
Theorem is_last_batch_cases self state :
  (_is_last_batch self state = Ok true ↔
   elapsed_at_least_one state ∨ batch_interval_alignment self state
   ∨ one_duration_alignment self state) ∧
  (∀ md, ¬ elapsed_at_least_one state →
         unit (save_interval self) = BATCH →
         max_duration state = Some md →
         (inject_Z (epoch (timestamp state)) == value md - 2)%Q →
         _is_last_batch self state = Ok false) ∧
  (save_interval self = {| value := 1; unit := DURATION |} →
   max_duration state = Some {| value := 3; unit := EPOCH |} →
   dataloader_len state = Some 10 →
   (elapsed_at_least_one state → batch (timestamp state) = 30) →
   _is_last_batch self state = Ok (batch (timestamp state) mod 30 =? 0)).
Proof.
  split_and!; [apply is_last_batch_iff | |].
  - intros md Ha Hu Hmd Hepoch.
    apply (is_last_batch_other_epoch self state md Ha Hu Hmd).
    rewrite Hepoch. generalize (value md). intros q H. lra.
  - intros Hsi Hmd Hlen Hend.
    pose proof (elapsed_at_least_one_spec state) as Ha.
    unfold _is_last_batch. cbv zeta.
    destruct (match get_elapsed_duration state with
              | Some e => Qle_bool 1 e | None => false end).
    + by rewrite Hend by (by apply Ha).
    + by rewrite Hsi, Hmd, Hlen.
Qed.

(** The run of three epochs of ten batches with [save_interval = 1dur], at
    batch 30: at the checkpoint of the batch, with two epochs counted and
    the elapsed fraction at 2/3, and after the end of the epoch, with the
    elapsed fraction at 1.0.  The answer is [True] at both. *)
Lemma is_last_batch_cases_witness :
  _is_last_batch example_checkpointer
    (example_state (Some (2 # 3))
                   {| epoch := 2; batch := 30; batch_in_epoch := 10 |}) = Ok true ∧
  _is_last_batch example_checkpointer
    (example_state (Some 1%Q)
                   {| epoch := 3; batch := 30; batch_in_epoch := 0 |}) = Ok true.
Proof.
  split.
  - refine (proj2 (proj2 (is_last_batch_cases example_checkpointer
      (example_state (Some (2 # 3))
                     {| epoch := 2; batch := 30; batch_in_epoch := 10 |})))
      eq_refl eq_refl eq_refl _).
    intros (e & [= <-] & He). by apply Qle_bool_iff in He.
  - refine (proj2 (proj2 (is_last_batch_cases example_checkpointer
      (example_state (Some 1%Q)
                     {| epoch := 3; batch := 30; batch_in_epoch := 0 |})))
      eq_refl eq_refl eq_refl _).
    intros _. reflexivity.
Defined.

(** The run of three epochs of ten batches with an interval of ten batches.
    At the last batch of the second-to-last epoch (one epoch counted, ten
    batches of the second one done, batch index 20) the answer is [False],
    whether the elapsed fraction there counts the completed epochs only or
    the batches as well; at the last batch of the final epoch (two epochs
    counted, batch index 30) it is [True]. *)
Lemma is_last_batch_second_to_last_epoch_counterexample :
  unit (save_interval example_batch_checkpointer) = BATCH ∧
  _is_last_batch example_batch_checkpointer
    (example_state (Some (1 # 3))
                   {| epoch := 1; batch := 20; batch_in_epoch := 10 |}) = Ok false ∧
  _is_last_batch example_batch_checkpointer
    (example_state (Some (2 # 3))
                   {| epoch := 1; batch := 20; batch_in_epoch := 10 |}) = Ok false ∧
  _is_last_batch example_batch_checkpointer
    (example_state (Some (2 # 3))
                   {| epoch := 2; batch := 30; batch_in_epoch := 10 |}) = Ok true.
Proof. split_and!; reflexivity. Qed.

(** ** The wait at the end of training *)

Section FitEnd.
Variable world : World.
Variable self : HuggingFaceCheckpointer.

Lemma all_child_processes_done_alive k :
  _all_child_processes_done world self k = true ↔ no_process_alive world self k.
Proof.
  unfold _all_child_processes_done, no_process_alive. cbv zeta.
  rewrite Z.eqb_eq.
  destruct (existsb (is_alive world k) (child_processes self)) eqn:Halive.
  - rewrite all_reduce_max_zero by lia. split; [by intros [[=] _]|].
    intros [Hnone _]. apply existsb_exists in Halive as (p & Hp & Hyes).
    rewrite Forall_forall in Hnone. apply list_elem_of_In in Hp.
    specialize (Hnone p Hp). congruence.
  - rewrite all_reduce_max_zero by lia. split.
    + intros [_ Hpeers]. split; [|done].
      apply Forall_forall. intros p Hp. apply list_elem_of_In in Hp.
      destruct (is_alive world k p) eqn:Hyes; [|done].
      assert (existsb (is_alive world k) (child_processes self) = true)
        by (apply existsb_exists; eauto).
      congruence.
    + by intros [_ Hpeers].
Qed.

Lemma all_child_processes_not_done k :
  _all_child_processes_done world self k = false → ¬ no_process_alive world self k.
Proof.
  intros Hfalse Hnone. apply all_child_processes_done_alive in Hnone. congruence.
Qed.

Lemma waiting_polls_S k n :
  waiting_polls world self k (S n) =
  poll_effect world self k :: Sleep 2 :: waiting_polls world self (S k) n.
Proof. reflexivity. Qed.

Lemma wait_loop_spec timeout start fuel k :
  ∃ n,
    (∀ j, (j < n)%nat →
          _all_child_processes_done world self (k + j) = false ∧
          (time_time world (S (k + j)) - start <= timeout)%Q) ∧
    ((n = fuel ∧
      wait_for_child_processes world self timeout start fuel k =
        (waiting_polls world self k n, OutOfFuel)) ∨
     ((n < fuel)%nat ∧
      _all_child_processes_done world self (k + n) = true ∧
      wait_for_child_processes world self timeout start fuel k =
        (waiting_polls world self k n ++ [poll_effect world self (k + n)], Ok tt)) ∨
     ((n < fuel)%nat ∧
      _all_child_processes_done world self (k + n) = false ∧
      (timeout < time_time world (S (k + n)) - start)%Q ∧
      wait_for_child_processes world self timeout start fuel k =
        (waiting_polls world self k n ++ [poll_effect world self (k + n)],
         Raise TimeoutError))).
Proof.
  revert k. induction fuel as [|fuel IH]; intros k.
  - exists 0%nat. split; [lia|]. left. split; reflexivity.
  - simpl. destruct (_all_child_processes_done world self k) eqn:Hdone.
    + exists 0%nat. split; [lia|]. right; left.
      rewrite Nat.add_0_r. repeat split; [lia | assumption].
    + destruct (Qle_bool (time_time world (S k) - start) timeout) eqn:Hle; simpl.
      * destruct (IH (S k)) as (n & Hbefore & Hend).
        exists (S n). split.
        { intros [|j] Hj.
          - rewrite Nat.add_0_r. split; [assumption|]. by apply Qle_bool_iff.
          - replace (k + S j)%nat with (S k + j)%nat by lia. apply Hbefore. lia. }
        replace (k + S n)%nat with (S k + n)%nat by lia.
        rewrite waiting_polls_S.
        destruct Hend as [(-> & ->) | [(Hn & Hd & ->) | (Hn & Hd & Ht & ->)]].
        -- left. split; reflexivity.
        -- right; left. repeat split; [lia | assumption].
        -- right; right. repeat split; [lia | assumption | assumption].
      * exists 0%nat. split; [lia|]. right; right.
        rewrite Nat.add_0_r. repeat split; [lia | assumption |].
        apply Qnot_le_lt. intros H. apply Qle_bool_iff in H. congruence.
Qed.

Lemma on_fit_end_spec fuel :
  ∃ n,
    (∀ j, (j < n)%nat →
          ¬ no_process_alive world self j ∧
          (wait_time world j <= 3600)%Q) ∧
    wait_ending world self fuel n
      (on_fit_end world fuel self).1 (on_fit_end world fuel self).2.
Proof.
  unfold on_fit_end.
  destruct (wait_loop_spec 3600 (time_time world 0) fuel 0) as (n & Hbefore & Hend).
  exists n. split.
  { intros j Hj. destruct (Hbefore j Hj) as [Hd Ht].
    split; [by apply all_child_processes_not_done | exact Ht]. }
  simpl in Hend.
  destruct Hend as [(Hn & ->) | [(Hn & Hd & ->) | (Hn & Hd & Ht & ->)]].
  - simpl. by apply wait_cut_off.
  - apply all_child_processes_done_alive in Hd.
    pose proof (wait_done world self fuel n Hn Hd) as H.
    destruct (temp_save_dir self); simpl in *.
    + by rewrite <- app_assoc.
    + exact H.
  - simpl. apply wait_timed_out; [done | | done].
    by apply all_child_processes_not_done.
Qed.

Lemma wait_time_lower_bound :
  clock_advances world →
  ∀ k, (inject_Z (2 * Z.of_nat k) <= wait_time world k)%Q.
Proof.
  intros [H0 Hstep] k. unfold wait_time. induction k as [|k IH].
  - apply Qle_minus_iff in H0. exact H0.
  - specialize (Hstep k).
    replace (2 * Z.of_nat (S k)) with (2 * Z.of_nat k + 2) by lia.
    rewrite inject_Z_plus. change (inject_Z 2) with 2%Q.
    generalize dependent (inject_Z (2 * Z.of_nat k)). intros q IH. lra.
Qed.

End FitEnd.

Lemma Rmtree_not_in_waiting_polls world self d k n :
  Rmtree d ∉ waiting_polls world self k n.
Proof.
  revert k. induction n as [|n IH]; intros k.
  - apply not_elem_of_nil.
  - rewrite waiting_polls_S. intros H.
    apply elem_of_cons in H as [H | H]; [discriminate H|].
    apply elem_of_cons in H as [H | H]; [discriminate H|].
    by apply (IH (S k)).
Qed.

Lemma run_event_no_fire_FIT_END world fuel self state logger :
  run_event world fuel self FIT_END state logger false =
  ((on_fit_end world fuel self).1,
   (fun _ => (self, state)) <$> (on_fit_end world fuel self).2).
Proof.
  unfold run_event, saves_now. rewrite andb_false_r. simpl.
  by destruct (on_fit_end world fuel self).
Qed.

(** C4.  On [FIT_END], when the interval scheduler does not fire, the callback
    polls [_all_child_processes_done] with [time.sleep(2)] after every
    unsuccessful poll, and a poll is unsuccessful only while a registration
    process is alive on some rank.  A poll that finds a process still alive
    after more than 3600 seconds of waiting raises [TimeoutError].  The
    temporary directory is removed only as the last step of a wait whose
    final poll found no process alive on any rank, and never in a run that
    raises.  With a clock that advances with the sleeps, 1802 turns of the
    loop are enough for the wait to end. *)
Theorem fit_end_waits_then_cleans world fuel self state logger :
  let trace := (on_fit_end world fuel self).1 in
  let r := (on_fit_end world fuel self).2 in
  run_event world fuel self FIT_END state logger false =
    (trace, (fun _ => (self, state)) <$> r) ∧
  (∃ n, (∀ j, (j < n)%nat →
              ¬ no_process_alive world self j ∧
              (wait_time world j <= 3600)%Q) ∧
        wait_ending world self fuel n trace r) ∧
  (∀ d, Rmtree d ∈ trace →
        r = Ok tt ∧ temp_save_dir self = Some d ∧
        ∃ n, no_process_alive world self n ∧
             trace = waiting_polls world self 0 n
                     ++ [poll_effect world self n; Rmtree d]) ∧
  (clock_advances world → (1802 <= fuel)%nat → r ≠ OutOfFuel).
Proof.
  intros trace r. split; [apply run_event_no_fire_FIT_END|].
  destruct (on_fit_end_spec world self fuel) as (n & Hbefore & Hend).
  fold trace r in Hend. split; [by exists n|]. split.
  - intros d Hd. inversion Hend as [Hn Hdone Ht Hr | Hn Hdone Hlate Ht Hr | Hn Ht Hr].
    + rewrite <- Ht in Hd. split; [reflexivity|].
      apply elem_of_app in Hd as [Hd | Hd];
        [by apply Rmtree_not_in_waiting_polls in Hd|].
      apply elem_of_cons in Hd as [Hd | Hd]; [discriminate Hd|].
      destruct (temp_save_dir self) as [d'|]; [|by apply not_elem_of_nil in Hd].
      apply list_elem_of_singleton in Hd. injection Hd as ->.
      split; [reflexivity|]. exists n. split; [assumption | reflexivity].
    + rewrite <- Ht in Hd.
      apply elem_of_app in Hd as [Hd | Hd];
        [by apply Rmtree_not_in_waiting_polls in Hd|].
      apply list_elem_of_singleton in Hd. discriminate Hd.
    + rewrite <- Ht in Hd. by apply Rmtree_not_in_waiting_polls in Hd.
  - intros Hclock Hfuel Hout.
    inversion Hend as [Hn Hdone Ht Hr | Hn Hdone Hlate Ht Hr | Hn Ht Hr];
      [congruence .. |].
    destruct (Hbefore 1801%nat) as [_ Hle]; [lia|].
    pose proof (wait_time_lower_bound world Hclock 1801) as Hlow.
    change (inject_Z (2 * Z.of_nat 1801)) with (3602%Q) in Hlow. lra.
Qed.

(** The callback of the example waits for process 7, which is alive at the
    first two polls: two polls with their sleeps, a third poll that finds no
    process alive, then the removal of the temporary directory.  With a
    process that never ends the wait stops with [TimeoutError] and the
    directory stays. *)
Lemma fit_end_waits_then_cleans_witness :
  (on_fit_end example_world 1802 example_waiting_checkpointer).1 =
    [AllReduce 1; Sleep 2; AllReduce 1; Sleep 2; AllReduce 0;
     Rmtree "/tmp/tmpdir"] ∧
  (∃ n, no_process_alive example_world example_waiting_checkpointer n ∧
        (on_fit_end example_world 1802 example_waiting_checkpointer).1 =
          waiting_polls example_world example_waiting_checkpointer 0 n
          ++ [poll_effect example_world example_waiting_checkpointer n;
              Rmtree "/tmp/tmpdir"]) ∧
  (on_fit_end example_world 1802 example_waiting_checkpointer).2 ≠ OutOfFuel ∧
  (on_fit_end example_stuck_world 1802 example_waiting_checkpointer).2 =
    Raise TimeoutError ∧
  Rmtree "/tmp/tmpdir" ∉
    (on_fit_end example_stuck_world 1802 example_waiting_checkpointer).1.
Proof.
  pose (state := example_state (Some 1%Q)
                   {| epoch := 3; batch := 30; batch_in_epoch := 0 |}).
  destruct (fit_end_waits_then_cleans example_world 1802
              example_waiting_checkpointer state example_logger)
    as (_ & _ & Hclean & Hfuel).
  destruct (fit_end_waits_then_cleans example_stuck_world 1802
              example_waiting_checkpointer state example_logger)
    as (_ & _ & Hstuck & _).
  assert (Htrace :
    (on_fit_end example_world 1802 example_waiting_checkpointer).1 =
      [AllReduce 1; Sleep 2; AllReduce 1; Sleep 2; AllReduce 0;
       Rmtree "/tmp/tmpdir"]) by (vm_compute; reflexivity).
  assert (Hr :
    (on_fit_end example_stuck_world 1802 example_waiting_checkpointer).2 =
      Raise TimeoutError) by (vm_compute; reflexivity).
  split_and!.
  - exact Htrace.
  - destruct (Hclean "/tmp/tmpdir") as (_ & _ & n & Hnone & Heq).
    + rewrite Htrace. do 5 apply list_elem_of_further. apply list_elem_of_here.
    + exists n. split; [exact Hnone | exact Heq].
  - apply Hfuel; [|exact (le_n 1802)]. split.
    + cbn [example_world time_time]. rewrite <- Zle_Qle. lia.
    + intros k. cbn [example_world time_time].
      change 2%Q with (inject_Z 2).
      rewrite <- inject_Z_plus, <- Zle_Qle. lia.
  - exact Hr.
  - intros Hin. destruct (Hstuck "/tmp/tmpdir" Hin) as (Hok & _).
    rewrite Hr in Hok. discriminate Hok.
Defined.

(** ** One call of [run_event] *)

Section RunEvent.
Variable world : World.
Variable fuel : nat.
Variable logger : Logger.

Lemma saved_batches_app t1 t2 :
  saved_batches (t1 ++ t2) = saved_batches t1 ++ saved_batches t2.
Proof. apply omap_app. Qed.

Lemma register_loop_spec use_temp_dir temp_dir loggers : ∀ i self,
  saved_batches (register_loop world use_temp_dir temp_dir i loggers self).1 = [] ∧
  last_checkpoint_batch (register_loop world use_temp_dir temp_dir i loggers self).2
  = last_checkpoint_batch self.
Proof.
  induction loggers as [|l rest IH]; intros i self; [done|].
  simpl.
  match goal with |- context [register_loop _ _ _ (S i) rest ?s] =>
    destruct (IH (S i) s) as [Htrace Hmarker];
    destruct (register_loop world use_temp_dir temp_dir (S i) rest s)
      as [trace self'] end.
  simpl in *. split; [exact Htrace|].
  rewrite Hmarker. by destruct use_temp_dir.
Qed.

Lemma save_checkpoint_saved self state :
  saved_batches (_save_checkpoint world self state).1 = [batch (timestamp state)].
Proof.
  unfold _save_checkpoint. cbv zeta.
  destruct (get_global_rank world =? 0); [|reflexivity].
  destruct (truthy_name _).
  - destruct (_is_last_batch _ state) as [[|]|e|]; try reflexivity.
    + match goal with |- context [register_loop ?w ?u ?d ?i ?l ?s] =>
        pose proof (register_loop_spec u d l i s) as [H _];
        destruct (register_loop w u d i l s) as [trace self'] end.
      simpl in *. by rewrite H.
    + simpl. by destruct (bool_decide _).
  - simpl. by destruct (bool_decide _).
Qed.

Lemma save_checkpoint_marker self state self' :
  (_save_checkpoint world self state).2 = Ok self' →
  last_checkpoint_batch self' = Some (batch (timestamp state)).
Proof.
  unfold _save_checkpoint. cbv zeta.
  destruct (get_global_rank world =? 0); [|by intros [= <-]].
  destruct (truthy_name _); [|by intros [= <-]].
  destruct (_is_last_batch _ state) as [[|]|e|]; try discriminate.
  - match goal with |- context [register_loop ?w ?u ?d ?i ?l ?s] =>
      pose proof (register_loop_spec u d l i s) as [_ H];
      destruct (register_loop w u d i l s) as [trace self''] end.
    simpl in *. intros [= <-]. exact H.
  - by intros [= <-].
Qed.

Lemma save_checkpoint_no_ValueError self state msg :
  (_save_checkpoint world self state).2 ≠ Raise (ValueError msg).
Proof.
  unfold _save_checkpoint. cbv zeta.
  destruct (get_global_rank world =? 0); [|discriminate].
  destruct (truthy_name _); [|discriminate].
  destruct (_is_last_batch _ state) as [[|]|e|] eqn:Hlast; try discriminate.
  - by destruct (register_loop _ _ _ _ _ _).
  - simpl. intros [= ->]. revert Hlast. unfold _is_last_batch. cbv zeta.
    repeat match goal with
           | |- context [match ?x with _ => _ end] => destruct x
           end; try discriminate.
    unfold py_mod.
    repeat match goal with
           | |- context [if ?x then _ else _] => destruct x
           end; discriminate.
Qed.

Lemma on_init_spec self state :
  saved_batches (on_init self state logger).1 = [] ∧
  ∀ self' state', (on_init self state logger).2 = Ok (self', state') →
                  last_checkpoint_batch self' = last_checkpoint_batch self.
Proof.
  unfold on_init. destruct (model state); [|done..].
  destruct (remote_ud self); destruct (mlflow_registered_model_name self);
    simpl; try destruct (_ =? _)%nat; simpl;
    (split; [by rewrite ?saved_batches_app | by intros ?? [= <- <-]]) || done.
Qed.

Lemma saved_batches_waiting_polls self k n :
  saved_batches (waiting_polls world self k n) = [].
Proof.
  revert k. induction n as [|n IH]; intros k; [done|].
  rewrite waiting_polls_S. simpl. apply IH.
Qed.

Lemma on_fit_end_saved self :
  saved_batches (on_fit_end world fuel self).1 = [].
Proof.
  destruct (on_fit_end_spec world self fuel) as (n & _ & Hend).
  inversion Hend; rewrite ?saved_batches_app, saved_batches_waiting_polls;
    simpl; by destruct (temp_save_dir self).
Qed.

Lemma run_event_saved self event state fires :
  saved_batches (run_event world fuel self event state logger fires).1 =
  if saves_now self state fires then [batch (timestamp state)] else [].
Proof.
  unfold run_event.
  destruct (saves_now self state fires).
  - pose proof (save_checkpoint_saved self state) as H.
    by destruct (_save_checkpoint world self state).
  - destruct (Event_eqb event INIT); [apply on_init_spec|].
    destruct (Event_eqb event FIT_END); [|done].
    pose proof (on_fit_end_saved self) as H.
    by destruct (on_fit_end world fuel self).
Qed.

Lemma run_event_marker self event state fires self' state' :
  (run_event world fuel self event state logger fires).2 = Ok (self', state') →
  last_checkpoint_batch self' =
  if saves_now self state fires then Some (batch (timestamp state))
  else last_checkpoint_batch self.
Proof.
  unfold run_event.
  destruct (saves_now self state fires).
  - pose proof (save_checkpoint_marker self state) as H.
    destruct (_save_checkpoint world self state) as [trace [s|e|]]; simpl in *;
      [|discriminate..].
    intros [= <- <-]. by apply H.
  - destruct (Event_eqb event INIT); [apply on_init_spec|].
    destruct (Event_eqb event FIT_END); [|by intros [= <- <-]].
    destruct (on_fit_end world fuel self) as [trace [[]|e|]]; simpl;
      [|discriminate..].
    by intros [= <- <-].
Qed.

End RunEvent.

(** ** A run over a sequence of events *)

Section RunEvents.
Variable world : World.
Variable fuel : nat.
Variable logger : Logger.

Lemma marker_differs_false marker b :
  marker_differs marker b = false ↔ marker = Some b.
Proof.
  destruct marker as [m|]; simpl.
  - rewrite negb_false_iff, Z.eqb_eq. split; [by intros -> | by intros [= ->]].
  - split; discriminate.
Qed.

Lemma saves_now_triggered self t :
  saves_now self (tick_state t) (tick_fires t) =
  triggered t && marker_differs (last_checkpoint_batch self) (tick_batch t).
Proof. reflexivity. Qed.

(** What the first tick of a run contributes. *)
Lemma first_tick_saved self t rest :
  (∀ m, last_checkpoint_batch self = Some m →
        Forall (fun t => m <= tick_batch t) (t :: rest)) →
  let saved :=
    if triggered t && marker_differs (last_checkpoint_batch self) (tick_batch t)
    then [tick_batch t] else [] in
  StronglySorted Z.lt saved ∧
  Forall (fun b => ∀ m, last_checkpoint_batch self = Some m → m < b) saved ∧
  Forall (fun b => ∃ t', t' ∈ t :: rest ∧ tick_batch t' = b ∧ triggered t' = true)
         saved.
Proof.
  intros Hmarker saved. subst saved.
  destruct (triggered t && marker_differs _ _) eqn:Hnow;
    [|split_and!; constructor].
  apply andb_true_iff in Hnow as [Htrig Hdiff].
  split_and!.
  - repeat constructor.
  - constructor; [|constructor]. intros m Hm.
    specialize (Hmarker m Hm). apply Forall_cons in Hmarker as [Hm' _].
    rewrite Hm in Hdiff. simpl in Hdiff.
    apply negb_true_iff, Z.eqb_neq in Hdiff. lia.
  - constructor; [|constructor]. exists t. split; [by left | by split].
Qed.

(** The invariant of a run that starts with the marker [last_checkpoint_batch
    self] at or below every batch index to come. *)
Lemma run_events_invariant ticks : ∀ self,
  batches_never_decrease ticks →
  (∀ m, last_checkpoint_batch self = Some m →
        Forall (fun t => m <= tick_batch t) ticks) →
  let trace := (run_events world fuel logger self ticks).1 in
  let r := (run_events world fuel logger self ticks).2 in
  StronglySorted Z.lt (saved_batches trace) ∧
  Forall (fun b => ∀ m, last_checkpoint_batch self = Some m → m < b)
         (saved_batches trace) ∧
  Forall (fun b => ∃ t, t ∈ ticks ∧ tick_batch t = b ∧ triggered t = true)
         (saved_batches trace) ∧
  (∀ self', r = Ok self' →
     ∀ t, t ∈ ticks → triggered t = true →
          tick_batch t ∈ saved_batches trace
          ∨ last_checkpoint_batch self = Some (tick_batch t)).
Proof.
  unfold batches_never_decrease.
  induction ticks as [|t rest IH]; intros self Hsorted Hmarker; cbn [run_events map] in *.
  { split_and!; [constructor .. |]. intros ? _ t0 Ht. by apply elem_of_nil in Ht. }
  apply StronglySorted_inv in Hsorted as [Hrest Hle].
  rewrite List.Forall_map in Hle.
  pose proof (run_event_saved world fuel logger self (tick_event t)
                (tick_state t) (tick_fires t)) as Hsaved.
  pose proof (run_event_marker world fuel logger self (tick_event t)
                (tick_state t) (tick_fires t)) as Hnext.
  rewrite saves_now_triggered in Hsaved, Hnext.
  fold (tick_batch t) in Hsaved, Hnext.
  destruct (run_event world fuel self (tick_event t) (tick_state t) logger
              (tick_fires t)) as [trace1 [[self1 state1]|e|]]; cbn [fst snd] in *.
  - (* the callback returns, the run goes on *)
    specialize (Hnext self1 state1 eq_refl).
    assert (Hmarker1 : ∀ m, last_checkpoint_batch self1 = Some m →
                            Forall (fun t => m <= tick_batch t) rest).
    { intros m Hm. rewrite Hnext in Hm.
      destruct (triggered t && marker_differs _ _).
      - injection Hm as <-. exact Hle.
      - specialize (Hmarker m Hm). by apply Forall_cons in Hmarker as [_ ?]. }
    destruct (IH self1 Hrest Hmarker1) as (IHsorted & IHabove & IHfrom & IHall).
    destruct (run_events world fuel logger self1 rest) as [trace2 r2]; cbn [fst snd] in *.
    rewrite saved_batches_app, Hsaved.
    destruct (triggered t && marker_differs _ _) eqn:Hnow; simpl.
    + apply andb_true_iff in Hnow as [Htrig Hdiff].
      assert (Hlt : ∀ m, last_checkpoint_batch self = Some m → m < tick_batch t).
      { intros m Hm. specialize (Hmarker m Hm).
        apply Forall_cons in Hmarker as [Hm' _].
        rewrite Hm in Hdiff. simpl in Hdiff.
        apply negb_true_iff, Z.eqb_neq in Hdiff. lia. }
      assert (Hfirst : Forall (Z.lt (tick_batch t)) (saved_batches trace2)).
      { eapply Forall_impl; [exact IHabove|]. intros b Hb. by apply Hb. }
      split_and!.
      * by constructor.
      * constructor; [exact Hlt|].
        apply Forall_forall. intros b Hb m Hm.
        rewrite Forall_forall in Hfirst. specialize (Hfirst b Hb).
        specialize (Hlt m Hm). lia.
      * constructor.
        -- exists t. split; [by left | by split].
        -- eapply Forall_impl; [exact IHfrom|].
           intros b (t' & Ht' & Hb & Ht'trig). exists t'.
           split; [by right | by split].
      * intros self' Hr t' Ht' Htrig'.
        apply elem_of_cons in Ht' as [-> | Ht']; [left; by left|].
        destruct (IHall self' Hr t' Ht' Htrig') as [Hin | Hm].
        -- left. by right.
        -- rewrite Hnext in Hm. injection Hm as Hm. left. rewrite Hm. by left.
    + split_and!.
      * exact IHsorted.
      * eapply Forall_impl; [exact IHabove|]. intros b Hb m Hm.
        apply Hb. by rewrite Hnext.
      * eapply Forall_impl; [exact IHfrom|].
        intros b (t' & Ht' & Hb & Ht'trig). exists t'.
        split; [by right | by split].
      * intros self' Hr t' Ht' Htrig'.
        apply elem_of_cons in Ht' as [-> | Ht'].
        -- right. rewrite Htrig' in Hnow. simpl in Hnow.
           by apply marker_differs_false.
        -- destruct (IHall self' Hr t' Ht' Htrig') as [Hin | Hm]; [by left|].
           right. by rewrite <- Hnext.
  - (* an exception ends the run *)
    rewrite Hsaved. split_and!; [..| discriminate];
      eapply first_tick_saved; eauto.
  - rewrite Hsaved. split_and!; [..| discriminate];
      eapply first_tick_saved; eauto.
Qed.

Lemma StronglySorted_lt_NoDup (l : list Z) : StronglySorted Z.lt l → NoDup l.
Proof.
  induction 1 as [|x l Hl IH Hx]; constructor; [|exact IH].
  intros Hin. rewrite Forall_forall in Hx. specialize (Hx x Hin). lia.
Qed.

End RunEvents.

(** ** Saving once per batch index *)

(** C3 (amended).  Along events whose batch index never decreases, a fresh
    callback saves at most once per batch index; a call of [run_event] made
    while the elapsed duration is unavailable saves nothing, and every saved
    batch index comes from an event at which the elapsed duration was there
    and the scheduler fired; when the run returns, every batch index at which
    the scheduler fired, however many times, was saved exactly once. *)
Theorem saves_once_per_batch world fuel logger self ticks :
  last_checkpoint_batch self = None →
  batches_never_decrease ticks →
  let trace := (run_events world fuel logger self ticks).1 in
  let r := (run_events world fuel logger self ticks).2 in
  NoDup (saved_batches trace) ∧
  (∀ callback event state fires,
     get_elapsed_duration state = None →
     saved_batches (run_event world fuel callback event state logger fires).1 = []) ∧
  Forall (fun b => ∃ t, t ∈ ticks ∧ tick_batch t = b ∧
                        is_Some (get_elapsed_duration (tick_state t)) ∧
                        tick_fires t = true)
         (saved_batches trace) ∧
  (∀ self', r = Ok self' →
     ∀ t, t ∈ ticks → triggered t = true →
          count_occ Z.eq_dec (saved_batches trace) (tick_batch t) = 1%nat).
Proof.
  intros Hfresh Hsorted trace r.
  destruct (run_events_invariant world fuel logger ticks self Hsorted)
    as (Hstrict & _ & Hfrom & Hall).
  { intros m Hm. rewrite Hfresh in Hm. discriminate Hm. }
  fold trace r in Hstrict, Hfrom, Hall.
  pose proof (StronglySorted_lt_NoDup _ Hstrict) as Hnodup.
  split_and!.
  - exact Hnodup.
  - intros callback event state fires Hnone.
    rewrite run_event_saved. unfold saves_now. by rewrite Hnone.
  - eapply Forall_impl; [exact Hfrom|].
    intros b (t & Ht & Hb & Htrig). exists t.
    apply andb_true_iff in Htrig as [Hel Hf].
    apply bool_decide_eq_true in Hel. by split_and!.
  - intros self' Hr t Ht Htrig.
    destruct (Hall self' Hr t Ht Htrig) as [Hin | Hm];
      [|rewrite Hfresh in Hm; discriminate Hm].
    apply NoDup_ListNoDup in Hnodup.
    apply (proj1 (List.NoDup_count_occ' Z.eq_dec _) Hnodup).
    by apply list_elem_of_In.
Qed.

(** The last batch of an epoch: [BATCH_CHECKPOINT] and [EPOCH_CHECKPOINT]
    both fire at batch 30, one checkpoint is saved. *)
Lemma saves_once_per_batch_witness :
  count_occ Z.eq_dec
    (saved_batches
       (run_events example_world 5 example_logger example_checkpointer
          [firing_tick BATCH_CHECKPOINT 29; firing_tick BATCH_CHECKPOINT 30;
           firing_tick EPOCH_CHECKPOINT 30]).1) 30 = 1%nat.
Proof.
  refine (proj2 (proj2 (proj2
    (saves_once_per_batch example_world 5 example_logger example_checkpointer
       [firing_tick BATCH_CHECKPOINT 29; firing_tick BATCH_CHECKPOINT 30;
        firing_tick EPOCH_CHECKPOINT 30] eq_refl _))) _ eq_refl
    (firing_tick EPOCH_CHECKPOINT 30) _ eq_refl).
  - unfold batches_never_decrease. cbn. repeat first [lia | constructor].
  - apply list_elem_of_In. simpl. auto.
Defined.

(** A batch index that comes back after a later one is saved again: the
    marker remembers the last saved batch only. *)
Lemma saves_once_per_batch_counterexample :
  last_checkpoint_batch example_checkpointer = None ∧
  saved_batches
    (run_events example_world 5 example_logger example_checkpointer
       [firing_tick BATCH_CHECKPOINT 1; firing_tick BATCH_CHECKPOINT 2;
        firing_tick BATCH_CHECKPOINT 1]).1 = [1; 2; 1].
Proof. split; reflexivity. Qed.

(** ** Validation at [INIT] *)

Lemma filter_MLFlowLogger_nil (l : list LoggerDestination) :
  Forall (fun d => is_MLFlowLogger d = false) l ↔
  filter (fun d => is_MLFlowLogger d = true) l = [].
Proof.
  induction l as [|d l IH]; [done|].
  rewrite Forall_cons, filter_cons, IH.
  destruct (decide (is_MLFlowLogger d = true)) as [H | H].
  - split; [intros [H' _]; congruence | discriminate].
  - split; [by intros [_ ?] | intros ?; split; [by destruct (is_MLFlowLogger d) | done]].
Qed.

(** C9.  At [INIT], when the interval scheduler does not fire, [run_event]
    raises [ValueError] if the model is no [HuggingFaceModel], and raises
    [ValueError] if a registered model name is set and no destination of the
    logger is an [MLFlowLogger]; in every other case the call returns.
    Nothing is saved in that call, and [_save_checkpoint] never raises a
    [ValueError]. *)
Theorem init_rejects_bad_configuration world fuel self state logger :
  let out := run_event world fuel self INIT state logger false in
  ((∀ m, model state ≠ IsHuggingFaceModel m) →
   ∃ msg, out = ([], Raise (ValueError msg))) ∧
  (is_Some (mlflow_registered_model_name self) →
   Forall (fun d => is_MLFlowLogger d = false) (destinations logger) →
   ∃ msg, out.2 = Raise (ValueError msg)) ∧
  (∀ m, model state = IsHuggingFaceModel m →
        (mlflow_registered_model_name self = None ∨
         Exists (fun d => is_MLFlowLogger d = true) (destinations logger)) →
        ∃ self' state', out.2 = Ok (self', state')) ∧
  saved_batches out.1 = [] ∧
  (∀ w callback st msg,
     (_save_checkpoint w callback st).2 ≠ Raise (ValueError msg)).
Proof.
  intros out.
  assert (Hout : out = on_init self state logger).
  { subst out. unfold run_event, saves_now. by rewrite andb_false_r. }
  rewrite Hout. unfold on_init. split_and!.
  - intros Hmodel. destruct (model state) as [m| |]; [by destruct (Hmodel m)|..];
      by eexists.
  - intros [name Hname] Hnone. apply filter_MLFlowLogger_nil in Hnone.
    destruct (model state) as [m| |]; [|by eexists..].
    rewrite Hname, Hnone. destruct (remote_ud self); by eexists.
  - intros m -> Hfine.
    destruct (remote_ud self); destruct (mlflow_registered_model_name self) as [name|];
      simpl; try by eexists _, _.
    all: destruct Hfine as [[=] | Hex].
    all: destruct (filter _ (destinations logger)) eqn:Hf; simpl; try by eexists _, _.
    all: apply filter_MLFlowLogger_nil in Hf.
    all: apply Exists_exists in Hex as (d & Hd & Hyes).
    all: rewrite Forall_forall in Hf; specialize (Hf d Hd); congruence.
  - apply on_init_spec.
  - intros w callback st msg. apply save_checkpoint_no_ValueError.
Qed.

(** A registered model name with a logger whose only destination is of
    another kind. *)
Lemma init_rejects_bad_configuration_witness :
  ∃ msg, (run_event example_world 5 example_checkpointer INIT
            (example_state None {| epoch := 0; batch := 0; batch_in_epoch := 0 |})
            example_logger false).2
         = Raise (ValueError msg).
Proof.
  refine (proj1 (proj2
    (init_rejects_bad_configuration example_world 5 example_checkpointer
       (example_state None {| epoch := 0; batch := 0; batch_in_epoch := 0 |})
       example_logger)) _ _).
  - by eexists.
  - repeat constructor.
Defined.

(** ** The precision given to the constructor *)

Lemma precision_table_lookup (p : string) (d : Dtype) :
  precision_table !! p = Some d ↔
  (p = "float32" ∧ d = float32) ∨ (p = "float16" ∧ d = float16)
  ∨ (p = "bfloat16" ∧ d = bfloat16).
Proof.
  unfold precision_table. rewrite !lookup_insert_Some, lookup_empty.
  split.
  - intros [[<- <-] | [_ [[<- <-] | [_ [[<- <-] | [_ [=]]]]]]]; auto.
  - intros [[-> ->] | [[-> ->] | [-> ->]]].
    + by left.
    + right. split; [done|]. by left.
    + right. split; [done|]. right. split; [done|]. by left.
Qed.

Lemma init_dtype imports save_folder save_interval huggingface_folder_name
    prec overwrite mlflow_registered_model_name mlflow_logging_config
    flatten_imports self :
  __init__ imports save_folder save_interval huggingface_folder_name prec
    overwrite mlflow_registered_model_name mlflow_logging_config
    flatten_imports = Ok self →
  precision self = prec ∧ precision_table !! prec = Some (dtype self).
Proof.
  unfold __init__. cbv zeta.
  destruct (precision_table !! prec) as [d|]; [|discriminate].
  simpl.
  destruct (match mlflow_registered_model_name with
            | Some _ => _ | None => _ end) as [config|e|]; [|discriminate..].
  simpl.
  destruct (match config !! "metadata" with
            | Some _ => _ | None => _ end) as [name|e|]; [|discriminate..].
  simpl.
  destruct (Time_from_input imports save_interval EPOCH) as [t|e|];
    [|discriminate..].
  simpl. by intros [= <-].
Qed.

(** C10.  [__init__] raises [KeyError] for every precision other than
    ["float32"], ["float16"] and ["bfloat16"], whatever the other arguments;
    a callback that [__init__] returns carries one of the three precisions
    and the [dtype] that belongs to it. *)
Theorem init_precision imports save_folder save_interval
    huggingface_folder_name prec overwrite mlflow_registered_model_name
    mlflow_logging_config flatten_imports :
  let made := __init__ imports save_folder save_interval
                huggingface_folder_name prec overwrite
                mlflow_registered_model_name mlflow_logging_config
                flatten_imports in
  (prec ∉ ["float32"; "float16"; "bfloat16"] →
   made = Raise (KeyError prec)) ∧
  (∀ self, made = Ok self →
     precision self = prec ∧
     ((prec = "float32" ∧ dtype self = float32)
      ∨ (prec = "float16" ∧ dtype self = float16)
      ∨ (prec = "bfloat16" ∧ dtype self = bfloat16))).
Proof.
  intros made. split.
  - intros Hnot. subst made. unfold __init__. cbv zeta.
    destruct (precision_table !! prec) as [d|] eqn:Hd; [|reflexivity].
    exfalso. apply Hnot. apply precision_table_lookup in Hd.
    destruct Hd as [[-> _] | [[-> _] | [-> _]]]; set_solver.
  - intros self Hmade. apply init_dtype in Hmade as [Hp Hd].
    split; [exact Hp|]. by apply precision_table_lookup.
Qed.

(** The precision ["float64"] is refused; so is ["fp16"]. *)
Lemma init_precision_witness :
  __init__ example_imports "out" (IntervalStr "1dur") "ba{batch}" "float64"
    true None None ["llmfoundry"] = Raise (KeyError "float64").
Proof.
  refine (proj1 (init_precision example_imports "out" (IntervalStr "1dur")
                   "ba{batch}" "float64" true None None ["llmfoundry"]) _).
  intros H. repeat (apply elem_of_cons in H as [H | H]; [discriminate H|]).
  by apply elem_of_nil in H.
Defined.

(** The constructor on the arguments of the example gives the callback of
    the example. *)
Lemma init_example :
  __init__ example_imports "out" (IntervalStr "1dur") "ba{batch}" "float32"
    true (Some "my-model") None ["llmfoundry"] = Ok example_checkpointer.
Proof. reflexivity. Qed.

(** ** The state dict hook *)

Section KeyLoops.
Context {V : Type}.
Variable step : gmap string V → string → gmap string V.
Variable g : V → V.
Hypothesis step_local : ∀ m k j,
  step m k !! j = if decide (j = k) then g <$> (m !! k) else m !! j.

(** A loop over distinct keys that rewrites the value under its key rewrites
    the value under every key of the list, once. *)
Lemma foldl_local_update ks : ∀ m, NoDup ks →
  ∀ j, foldl step m ks !! j
       = if decide (j ∈ ks) then g <$> (m !! j) else m !! j.
Proof.
  induction ks as [|k ks IH]; intros m Hnd j; cbn [foldl].
  - destruct (decide (j ∈ [])) as [Hin | Hin];
      [by apply elem_of_nil in Hin | done].
  - apply NoDup_cons in Hnd as [Hk Hnd]. rewrite (IH _ Hnd), step_local.
    destruct (decide (j = k)) as [-> | Hjk].
    + rewrite (decide_False (P := k ∈ ks)) by done.
      rewrite (decide_True (P := k ∈ k :: ks)) by (by left). done.
    + destruct (decide (j ∈ ks)) as [Hin | Hin].
      * rewrite (decide_True (P := j ∈ k :: ks)) by (by right). done.
      * rewrite (decide_False (P := j ∈ k :: ks)); [done|].
        intros H. by apply elem_of_cons in H as [? | ?].
Qed.

Lemma foldl_keys_fmap (m : gmap string V) :
  foldl step m (map_to_list m).*1 = g <$> m.
Proof.
  apply map_eq. intros j.
  rewrite foldl_local_update by apply NoDup_fst_map_to_list.
  rewrite lookup_fmap. case_decide as Hin; [done|].
  destruct (m !! j) as [v|] eqn:Hj; [|done].
  exfalso. apply Hin. apply list_elem_of_fmap.
  exists (j, v). split; [done|]. by apply elem_of_map_to_list.
Qed.

End KeyLoops.

Lemma tensor_hook_step_local cast world self m k j :
  tensor_hook_step cast world self true m k !! j
  = if decide (j = k) then hooked_value cast world self <$> (m !! k) else m !! j.
Proof.
  unfold tensor_hook_step, hooked_value.
  destruct (m !! k) as [v|] eqn:Hk.
  - destruct v as [full|t| |n]; simpl.
    + destruct (get_global_rank world =? 0); rewrite lookup_insert_eq.
      * rewrite insert_insert_eq, lookup_insert. by repeat case_decide.
      * rewrite lookup_insert. by repeat case_decide.
    + rewrite Hk, lookup_insert. by repeat case_decide.
    + rewrite Hk. case_decide; by subst.
    + rewrite Hk. case_decide; by subst.
  - case_decide; by subst.
Qed.

Lemma tensor_hook_rank0 cast world self state_dict :
  get_global_rank world = 0 →
  tensor_hook cast world self state_dict
  = hooked_value cast world self <$> state_dict.
Proof.
  intros Hrank. unfold tensor_hook. rewrite Hrank. simpl.
  apply foldl_keys_fmap. intros m k j. apply tensor_hook_step_local.
Qed.

(** C2 (amended).  On rank 0 the hook keeps the keys of the state dict; a
    value that is a tensor, sharded or not, is left as a materialised tensor
    of the configured dtype (a gathered [DTensor] on the CPU), and a value
    that is no tensor is left as it is.  On every other rank the hook returns
    the empty dict. *)
Theorem tensor_hook_gathers cast world self state_dict :
  let gathered := tensor_hook cast world self state_dict in
  (get_global_rank world = 0 →
   dom gathered = dom state_dict ∧
   ∀ fqn v, state_dict !! fqn = Some v →
     (is_torch_Tensor v = true →
      ∃ v', gathered !! fqn = Some v' ∧ materialized_as (dtype self) v') ∧
     (∀ full, v = IsDTensor full →
        gathered !! fqn
        = Some (IsTensor (Tensor_to cast (dtype self) (Tensor_cpu full)))) ∧
     (is_torch_Tensor v = false → gathered !! fqn = Some v)) ∧
  (get_global_rank world ≠ 0 → gathered = ∅).
Proof.
  intros gathered. split.
  - intros Hrank. subst gathered. rewrite tensor_hook_rank0 by done.
    split; [apply dom_fmap_L|].
    intros fqn v Hv. rewrite lookup_fmap, Hv. simpl. unfold hooked_value.
    rewrite Hrank. simpl. split_and!.
    + intros Ht. destruct v as [full|t| |n]; try discriminate Ht;
        eexists; (split; [reflexivity|]); by eexists.
    + by intros full ->.
    + intros Ht. by destruct v.
  - intros Hrank. subst gathered. unfold tensor_hook.
    apply Z.eqb_neq in Hrank. by rewrite Hrank.
Qed.

(** On rank 0, the sharded weight of the example becomes a tensor of type
    [float32] on the CPU. *)
Lemma tensor_hook_gathers_witness :
  tensor_hook example_cast example_world example_checkpointer example_state_dict
    !! "model.wte.weight"
  = Some (IsTensor {| tensor_dtype := float32; tensor_device := CPU;
                      tensor_elements := [1; 2]%Q |}).
Proof.
  refine (proj1 (proj2 (proj2
    (proj1 (tensor_hook_gathers example_cast example_world example_checkpointer
              example_state_dict) eq_refl)
    "model.wte.weight" _ eq_refl)) _ eq_refl).
Defined.

(** The extra state of the example is a key of the gathered dict on rank 0
    and is no tensor. *)
Lemma tensor_hook_counterexample :
  get_global_rank example_world = 0 ∧
  tensor_hook example_cast example_world example_checkpointer example_state_dict
    !! "model.fc._extra_state" = Some (IsObject "io.BytesIO") ∧
  ¬ materialized_as (dtype example_checkpointer) (IsObject "io.BytesIO").
Proof.
  split_and!; [reflexivity | reflexivity |].
  intros (t & Ht & _). discriminate Ht.
Qed.

(** ** The pretrained model name *)

Lemma stamp_step_local name (m : gmap string PeftConfig) k j :
  stamp_step name m k !! j
  = if decide (j = k) then set_base_model_name_or_path name <$> (m !! k)
    else m !! j.
Proof.
  unfold stamp_step. destruct (m !! k) as [c|] eqn:Hk.
  - rewrite lookup_insert. by repeat case_decide.
  - case_decide; by subst.
Qed.

(** C7.  With a pretrained model name configured and a PEFT model, after the
    end of the rehydration (whatever [transform_model_and_tokenizer] did) the
    name of the new model instance, the name of its base model and the base
    model name of every entry of its [peft_config] are the configured name;
    the entries of [peft_config] are those it had. *)
Theorem stamping_sets_every_name self transform_model new_model_instance :
  pretrained_model_name self ≠ PNone →
  using_peft self = true →
  let name := pretrained_model_name self in
  let m := finish_rehydration self transform_model new_model_instance in
  name_or_path m = name ∧
  base_name_or_path (base_model m) = name ∧
  (∀ k c, peft_config m !! k = Some c → base_model_name_or_path c = name) ∧
  dom (peft_config m) = dom (peft_config (transform_model new_model_instance)).
Proof.
  intros Hname Hpeft name m. subst m name.
  unfold finish_rehydration, stamp_pretrained_model_name.
  rewrite Hpeft.
  assert (Hloop : ∀ configs : gmap string PeftConfig,
            foldl (stamp_step (pretrained_model_name self)) configs
                  (map_to_list configs).*1
            = set_base_model_name_or_path (pretrained_model_name self) <$> configs).
  { intros configs. apply foldl_keys_fmap. intros. apply stamp_step_local. }
  destruct (pretrained_model_name self) eqn:Hn; [done|..]; simpl;
    rewrite Hloop; (split_and!; [done | done | | apply dom_fmap_L]);
    intros k c; rewrite lookup_fmap;
    destruct (peft_config _ !! k); simpl; intros [= <-]; done.
Qed.

(** The PEFT model of the example gets the name from the metadata
    everywhere. *)
Lemma stamping_sets_every_name_witness :
  let m := finish_rehydration example_peft_checkpointer
             transform_model_and_tokenizer example_model_instance in
  name_or_path m = PStr "mosaicml/mpt-7b" ∧
  base_name_or_path (base_model m) = PStr "mosaicml/mpt-7b" ∧
  (∀ k c, peft_config m !! k = Some c →
          base_model_name_or_path c = PStr "mosaicml/mpt-7b") ∧
  dom (peft_config m) = dom (peft_config example_model_instance).
Proof.
  refine (stamping_sets_every_name example_peft_checkpointer
            transform_model_and_tokenizer example_model_instance _ eq_refl).
  discriminate.
Defined.

(** ** The config transformation *)

Lemma setitem_in_attribute_Ok attr key x attributes new :
  setitem_in_attribute attr key x attributes = Ok new →
  ∃ d, attributes !! attr = Some (PDict d) ∧
       new = <[attr := PDict (<[key := x]> d)]> attributes.
Proof.
  unfold setitem_in_attribute.
  destruct (attributes !! attr) as [[| | | |l|d]|]; try discriminate.
  simpl. intros [= <-]. by exists d.
Qed.

(** The attributes that [transform_config] leaves in the copy of an MPT
    config whose [attn_config] is the dictionary [d]. *)
Lemma transform_copied_config_Ok attributes new :
  transform_copied_config attributes = Ok new →
  (is_str "mpt" (model_type attributes) = false ∧ new = attributes) ∨
  (is_str "mpt" (model_type attributes) = true ∧
   ∃ d, attributes !! "attn_config" = Some (PDict d) ∧
     let normalised :=
       <["init_device" := PStr "cpu"]>
         (<["attn_config" := PDict (<["attn_impl" := PStr "torch"]> d)]> attributes) in
     ((∃ f, attributes !! "ffn_config" = Some (PDict f) ∧
            is_Some (f !! "moe_world_size") ∧
            new = <["ffn_config" := PDict (<["moe_world_size" := PInt 1]> f)]>
                    normalised)
      ∨ (value_contains "moe_world_size"
           (match attributes !! "ffn_config" with
            | Some v => v | None => PDict ∅ end) = Ok false ∧
         new = normalised))).
Proof.
  unfold transform_copied_config.
  destruct (is_str "mpt" (model_type attributes)); [|intros [= <-]; by left].
  destruct (setitem_in_attribute "attn_config" "attn_impl" (PStr "torch") attributes)
    as [m1|e|] eqn:H1; [|discriminate..].
  apply setitem_in_attribute_Ok in H1 as (d & Hd & ->). simpl.
  rewrite lookup_insert_ne, lookup_insert_ne by done.
  intros H. right. split; [done|]. exists d. split; [done|]. cbv zeta.
  destruct (value_contains "moe_world_size" _) as [[|]|e|] eqn:Hc;
    simpl in H; [| |discriminate..].
  - left. apply setitem_in_attribute_Ok in H as (f & Hf & ->).
    rewrite lookup_insert_ne, lookup_insert_ne in Hf by done.
    exists f. rewrite Hf in Hc. simpl in Hc. injection Hc as Hc.
    apply bool_decide_eq_true in Hc. done.
  - right. injection H as <-. done.
Qed.

Lemma model_type_insert_ne k v attributes :
  k ≠ "model_type" → model_type (<[k := v]> attributes) = model_type attributes.
Proof. intros Hk. unfold model_type. by rewrite lookup_insert_ne. Qed.

(** The transformation of the attributes changes nothing when applied to
    its own result. *)
Lemma transform_copied_config_idempotent attributes new :
  transform_copied_config attributes = Ok new →
  transform_copied_config new = Ok new.
Proof.
  intros H. destruct (transform_copied_config_Ok _ _ H)
    as [[Hno ->] | (Hmpt & d & Hd & Hnew)]; [exact H|].
  cbv zeta in Hnew. clear H.
  assert (Hstep : ∀ m : gmap string pyval,
            m !! "attn_config" = Some (PDict (<["attn_impl" := PStr "torch"]> d)) →
            m !! "init_device" = Some (PStr "cpu") →
            setitem_in_attribute "attn_config" "attn_impl" (PStr "torch") m = Ok m ∧
            <["init_device" := PStr "cpu"]> m = m).
  { intros m Ha Hi. unfold setitem_in_attribute. rewrite Ha. simpl.
    rewrite insert_insert_eq. split; [f_equal|]; by apply insert_id. }
  destruct Hnew as [(f & Hf & Hmoe & ->) | (Hc & ->)].
  - unfold transform_copied_config.
    rewrite !model_type_insert_ne, Hmpt by done.
    match goal with |- context [setitem_in_attribute "attn_config" _ _ ?m] =>
      destruct (Hstep m) as [-> Hid] end.
    { rewrite lookup_insert_ne, lookup_insert_ne, lookup_insert_eq; done. }
    { rewrite lookup_insert_ne, lookup_insert_eq; done. }
    simpl. rewrite Hid, lookup_insert_eq. simpl.
    rewrite bool_decide_eq_true_2 by (rewrite lookup_insert_eq; by eexists).
    simpl. unfold setitem_in_attribute. rewrite lookup_insert_eq. simpl.
    by rewrite !insert_insert_eq.
  - unfold transform_copied_config.
    rewrite !model_type_insert_ne, Hmpt by done.
    match goal with |- context [setitem_in_attribute "attn_config" _ _ ?m] =>
      destruct (Hstep m) as [-> Hid] end.
    { rewrite lookup_insert_ne, lookup_insert_eq; done. }
    { rewrite lookup_insert_eq; done. }
    simpl. rewrite Hid, lookup_insert_ne, lookup_insert_ne by done.
    by rewrite Hc.
Qed.

Lemma transform_config_Ok store original_config store' copied :
  transform_config store original_config = Ok (store', copied) →
  ∃ attributes new,
    store !! original_config = Some attributes ∧
    copied = fresh (dom store) ∧ (copied ∉ dom store) ∧
    transform_copied_config attributes = Ok new ∧
    store' = <[copied := new]> store.
Proof.
  unfold transform_config, deepcopy.
  destruct (store !! original_config) as [attributes|] eqn:Ho; [|discriminate].
  simpl. rewrite lookup_insert_eq.
  destruct (transform_copied_config attributes) as [new|e|] eqn:Hnew;
    [|discriminate..].
  simpl. intros [= <- <-]. exists attributes, new.
  split_and!; try done; [apply is_fresh | by rewrite insert_insert_eq].
Qed.

Lemma transform_config_run store original_config attributes new :
  store !! original_config = Some attributes →
  transform_copied_config attributes = Ok new →
  transform_config store original_config
  = Ok (<[fresh (dom store) := new]> store, fresh (dom store)).
Proof.
  intros Ho Hnew. unfold transform_config, deepcopy. rewrite Ho. simpl.
  rewrite lookup_insert_eq, Hnew. simpl. by rewrite insert_insert_eq.
Qed.

Ltac lookups :=
  repeat first
    [ rewrite lookup_insert_eq
    | rewrite lookup_insert_ne by (done || set_solver) ].

(** C5 (amended).  For a config whose [model_type] is not ["mpt"],
    [transform_config] returns a new object whose attributes are those of
    the original.  For an ["mpt"] config it returns, when [attn_config] is a
    dictionary and [ffn_config] is a dictionary or absent, a new object with
    [attn_config["attn_impl"] = "torch"], [init_device = "cpu"] and, where
    [ffn_config] has the key, [ffn_config["moe_world_size"] = 1]; every other
    attribute and every other item of the two dictionaries is that of the
    original. *)
Theorem transform_config_default store original_config attributes :
  store !! original_config = Some attributes →
  (is_str "mpt" (model_type attributes) = false →
   ∃ copied, (copied ∉ dom store) ∧
     transform_config store original_config
     = Ok (<[copied := attributes]> store, copied)) ∧
  (is_str "mpt" (model_type attributes) = true →
   (∀ d, attributes !! "attn_config" = Some (PDict d) →
         (attributes !! "ffn_config" = None
          ∨ ∃ f, attributes !! "ffn_config" = Some (PDict f)) →
         ∃ store' copied, transform_config store original_config
                          = Ok (store', copied)) ∧
   ∀ store' copied,
     transform_config store original_config = Ok (store', copied) →
     (copied ∉ dom store) ∧
     ∃ new, store' = <[copied := new]> store ∧
       attribute_item "attn_config" "attn_impl" new = Some (PStr "torch") ∧
       new !! "init_device" = Some (PStr "cpu") ∧
       (is_Some (attribute_item "ffn_config" "moe_world_size" attributes) →
        attribute_item "ffn_config" "moe_world_size" new = Some (PInt 1)) ∧
       (attribute_item "ffn_config" "moe_world_size" attributes = None →
        new !! "ffn_config" = attributes !! "ffn_config") ∧
       (∀ k, (k ∉ ["attn_config"; "init_device"; "ffn_config"]) →
             new !! k = attributes !! k) ∧
       (∀ k, k ≠ "attn_impl" →
             attribute_item "attn_config" k new
             = attribute_item "attn_config" k attributes) ∧
       (∀ k, k ≠ "moe_world_size" →
             attribute_item "ffn_config" k new
             = attribute_item "ffn_config" k attributes)).
Proof.
  intros Ho. split.
  - intros Hno. exists (fresh (dom store)). split; [apply is_fresh|].
    apply (transform_config_run _ _ attributes); [done|].
    unfold transform_copied_config. by rewrite Hno.
  - intros Hmpt. split.
    + intros d Hd Hffn.
      assert (∃ new, transform_copied_config attributes = Ok new) as [new Hnew];
        [|eexists _, _; by eapply transform_config_run].
      unfold transform_copied_config, setitem_in_attribute.
      rewrite Hmpt, Hd. simpl. lookups.
      destruct Hffn as [-> | [f ->]]; simpl.
      * by eexists.
      * destruct (bool_decide _); simpl; [|by eexists].
        lookups. simpl. by eexists.
    + intros store' copied Hrun.
      apply transform_config_Ok in Hrun
        as (attributes' & new & Ho' & -> & Hfresh & Hnew & ->).
      rewrite Ho in Ho'. injection Ho' as <-.
      split; [done|]. exists new. split; [done|].
      destruct (transform_copied_config_Ok _ _ Hnew)
        as [[Hno _] | (_ & d & Hd & Hcases)]; [congruence|].
      cbv zeta in Hcases. unfold attribute_item.
      destruct Hcases as [(f & Hf & Hmoe & ->) | (Hc & ->)].
      * rewrite Hd, Hf. lookups. split_and!.
        -- done.
        -- done.
        -- by lookups.
        -- intros Hnone. rewrite Hnone in Hmoe. by destruct Hmoe.
        -- intros k Hk. by lookups.
        -- intros k Hk. by lookups.
        -- intros k Hk. by lookups.
      * rewrite Hd. lookups. split_and!.
        -- done.
        -- done.
        -- intros Hmoe. exfalso.
           destruct (attributes !! "ffn_config") as [[| | | |l|f]|];
             try by destruct Hmoe.
           simpl in Hc. injection Hc as Hc.
           apply bool_decide_eq_false in Hc. done.
        -- done.
        -- intros k Hk. by lookups.
        -- intros k Hk. by lookups.
        -- done.
Qed.

(** The config of another model family is copied as it is. *)
Lemma transform_config_default_witness :
  ∃ copied, (copied ∉ dom example_store) ∧
    transform_config example_store 1%nat
    = Ok (<[copied := example_llama_config]> example_store, copied).
Proof.
  exact (proj1 (transform_config_default example_store 1%nat
                  example_llama_config eq_refl) eq_refl).
Defined.

(** The copy of the MPT config of the example has [init_device = "cpu"]
    and [attn_impl = "torch"], where the original has ["cuda"] and
    ["flash"]. *)
Lemma transform_config_default_counterexample :
  example_store !! 0%nat = Some example_mpt_config ∧
  example_mpt_config !! "init_device" = Some (PStr "cuda") ∧
  attribute_item "attn_config" "attn_impl" example_mpt_config
  = Some (PStr "flash") ∧
  ∃ store' copied new,
    transform_config example_store 0%nat = Ok (store', copied) ∧
    store' !! copied = Some new ∧
    new !! "init_device" = Some (PStr "cpu") ∧
    attribute_item "attn_config" "attn_impl" new = Some (PStr "torch").
Proof.
  split_and!; [reflexivity .. |].
  pose (new :=
    <["ffn_config" := PDict (<["moe_world_size" := PInt 1]>
                               (<["ffn_type" := PStr "mb_moe"]>
                                  {[ "moe_world_size" := PInt 8 ]}))]>
      (<["init_device" := PStr "cpu"]>
         (<["attn_config" := PDict (<["attn_impl" := PStr "torch"]>
                                      {[ "attn_impl" := PStr "flash" ]})]>
            example_mpt_config))).
  exists (<[2%nat := new]> example_store), 2%nat, new.
  split_and!; vm_compute; reflexivity.
Qed.

(** C6.  When [transform_config] returns, every object that was in the store
    before the call, the original config among them, has the attributes it
    had before; and [transform_config] on the returned config returns a
    config with the same attributes, leaving the first result as it is. *)
Theorem transform_config_idempotent store original_config store1 copied1 :
  transform_config store original_config = Ok (store1, copied1) →
  is_Some (store !! original_config) ∧
  (∀ obj, obj ∈ dom store → store1 !! obj = store !! obj) ∧
  ∃ store2 copied2,
    transform_config store1 copied1 = Ok (store2, copied2) ∧
    copied2 ≠ copied1 ∧
    store2 !! copied2 = store1 !! copied1 ∧
    store2 !! copied1 = store1 !! copied1.
Proof.
  intros Hrun.
  apply transform_config_Ok in Hrun
    as (attributes & new & Ho & -> & Hfresh & Hnew & ->).
  split_and!.
  - by eexists.
  - intros obj Hobj. apply lookup_insert_ne. by intros <-.
  - set (store1 := <[fresh (dom store) := new]> store).
    assert (Hcopied : store1 !! fresh (dom store) = Some new)
      by apply lookup_insert_eq.
    exists (<[fresh (dom store1) := new]> store1), (fresh (dom store1)).
    assert (Hne : fresh (dom store1) ≠ fresh (dom store)).
    { intros Heq. apply (is_fresh (dom store1)). rewrite Heq.
      apply elem_of_dom. by eexists. }
    split_and!.
    + apply (transform_config_run _ _ new); [done|].
      by apply transform_copied_config_idempotent in Hnew.
    + done.
    + by rewrite lookup_insert_eq.
    + by rewrite lookup_insert_ne.
Qed.

(** The MPT config of the example: transformed once, and once more. *)
Lemma transform_config_idempotent_witness :
  ∃ store1 copied1 store2 copied2,
    transform_config example_store 0%nat = Ok (store1, copied1) ∧
    store1 !! 0%nat = example_store !! 0%nat ∧
    transform_config store1 copied1 = Ok (store2, copied2) ∧
    store2 !! copied2 = store1 !! copied1.
Proof.
  eexists _, _.
  destruct (transform_config_idempotent example_store 0%nat _ _ eq_refl)
    as (_ & Hsame & store2 & copied2 & Hrun & _ & Heq & _).
  exists store2, copied2. split_and!; [reflexivity | | exact Hrun | exact Heq].
  apply Hsame. apply elem_of_dom. by eexists.
Defined.

(** ** The license file *)

(** Case analysis on the comparisons of code points in the goal. *)
Ltac compare_codepoints :=
  repeat match goal with
         | |- context [(?a <=? ?b)%N] => destruct (N.leb_spec a b)
         | |- context [(?a =? ?b)%N] => destruct (N.eqb_spec a b)
         end;
  simpl in *.

Lemma unicode_tolower_spec x :
  ((65 <= x <= 90)%N ∧ unicode_tolower x = (x + 32)%N)
  ∨ (x = 304%N ∧ unicode_tolower x = 105%N)
  ∨ (x = 8490%N ∧ unicode_tolower x = 107%N)
  ∨ (¬ (65 <= x <= 90)%N ∧ x ≠ 304%N ∧ x ≠ 8490%N ∧ unicode_tolower x = x).
Proof.
  unfold unicode_tolower. compare_codepoints; subst; try lia; auto.
Qed.

Lemma unicode_tolower_lower p :
  (97 <= p <= 122)%N → unicode_tolower p = p.
Proof. intros Hp. destruct (unicode_tolower_spec p); lia. Qed.

Lemma lit_matches_letter p x :
  (97 <= p <= 122)%N → lit_matches p x = true ↔ same_letter p x.
Proof.
  intros Hp. unfold lit_matches, same_letter, ignorecase_fixes.
  rewrite (unicode_tolower_lower p) by done. cbv zeta.
  pose proof (unicode_tolower_spec x) as Hx.
  generalize dependent (unicode_tolower x). intros y Hy.
  destruct (N.eqb_spec p 105); [|destruct (N.eqb_spec p 115)]; simpl;
    rewrite ?orb_true_iff, ?orb_false_r, ?N.eqb_eq; lia.
Qed.

Lemma lit_matches_dot x : lit_matches 46 x = true ↔ x = 46%N.
Proof.
  unfold lit_matches. simpl.
  pose proof (unicode_tolower_spec x) as Hx.
  generalize dependent (unicode_tolower x). intros y Hy.
  rewrite orb_false_r, N.eqb_eq.
  change (unicode_tolower 46) with 46%N. lia.
Qed.

Lemma range_matches_letter x : range_matches 97 122 x = true ↔ is_letter x.
Proof.
  unfold range_matches, is_letter, same_letter. simpl.
  pose proof (unicode_tolower_spec x) as Hx.
  generalize dependent (unicode_tolower x). intros y Hy.
  rewrite !orb_true_iff, andb_true_iff, !N.leb_le, !N.eqb_eq. split.
  - intros [[Hy1 | Hy1] | Hy1].
    + exists y. lia.
    + exists 105%N. lia.
    + exists 115%N. lia.
  - intros (p & Hp & H). lia.
Qed.

(** A word of lower-case letters in front of a pattern: the subject starts
    with the same letters, case ignored, and the pattern matches what
    follows. *)
Lemma matches_at_literal w r k : ∀ s,
  Forall (fun p => (97 <= p <= 122)%N) w →
  matches_at (literal w r) s k = true ↔
  ∃ word rest, s = word ++ rest ∧ Forall2 same_letter w word ∧
               matches_at r rest k = true.
Proof.
  induction w as [|c w IH]; intros s Hw.
  - simpl. split.
    + intros H. exists [], s. split_and!; [done | constructor | done].
    + intros (word & rest & -> & Hword & H).
      apply Forall2_nil_inv_l in Hword as ->. exact H.
  - apply Forall_cons in Hw as [Hc Hw]. cbn [literal matches_at].
    destruct s as [|x s].
    + split; [discriminate|].
      intros (word & rest & Hs & Hword & _).
      apply Forall2_cons_inv_l in Hword as (y & word' & _ & _ & ->).
      discriminate Hs.
    + rewrite andb_true_iff, (lit_matches_letter c x Hc), (IH s Hw). split.
      * intros (Hx & word & rest & -> & Hword & H).
        exists (x :: word), rest. split_and!; [done | by constructor | done].
      * intros (word & rest & Hs & Hword & H).
        apply Forall2_cons_inv_l in Hword as (y & word' & Hy & Hword & ->).
        injection Hs as <- ->. split; [done|]. by exists word', rest.
Qed.

Lemma at_dollar_singleton d : at_dollar [d] = (d =? 10)%N.
Proof.
  destruct d as [|p]; [done|].
  do 4 (try (destruct p as [p|p|]; try done)).
Qed.

Lemma at_dollar_longer d x rest : at_dollar (d :: x :: rest) = false.
Proof.
  destruct d as [|p]; [done|].
  do 4 (try (destruct p as [p|p|]; try done)).
Qed.

(** What may follow "license": the second part of the pattern. *)
Lemma matches_at_extension after :
  matches_at (Alt (Seq (Lit 46) (Plus (Range 97 122))) Dollar) after
             (fun _ => true) = true ↔
  after = [] ∨ after = [10%N]
  ∨ ∃ x rest, after = 46%N :: x :: rest ∧ is_letter x.
Proof.
  cbn [matches_at]. rewrite orb_true_iff, andb_true_r.
  destruct after as [|d [|x rest]].
  - simpl. split; [by left | by right].
  - cbn [length]. rewrite andb_false_r, at_dollar_singleton, N.eqb_eq.
    split.
    + intros [H | ->]; [discriminate H | by right; left].
    + intros [H | [[= ->] | (x & rest & H & _)]];
        [discriminate H | by right | discriminate H].
  - cbn [length]. rewrite at_dollar_longer.
    rewrite andb_true_iff, lit_matches_dot.
    cbn [orb andb]. rewrite andb_true_r, range_matches_letter.
    split.
    + intros [[-> Hx] | H]; [|discriminate H].
      right; right. by exists x, rest.
    + intros [H | [H | (x' & rest' & [= -> -> ->] & Hx)]];
        [discriminate H | discriminate H | by left].
Qed.

Lemma search_spec r : ∀ s,
  search r s = true ↔
  ∃ before rest, s = before ++ rest ∧ matches_at r rest (fun _ => true) = true.
Proof.
  induction s as [|x s IH]; cbn [search]; rewrite orb_true_iff.
  - split.
    + intros [H | H]; [|discriminate H]. by exists [], [].
    + intros (before & rest & Hs & H). left.
      symmetry in Hs. apply app_eq_nil in Hs as [-> ->]. exact H.
  - rewrite IH. split.
    + intros [H | (before & rest & -> & H)].
      * by exists [], (x :: s).
      * by exists (x :: before), rest.
    + intros ([|y before] & rest & Hs & H).
      * left. simpl in Hs. by subst.
      * right. injection Hs as <- ->. by exists before, rest.
Qed.

(** The pattern finds exactly the names described by [license_name]. *)
Lemma search_license_name name :
  search _LICENSE_FILE_PATTERN name = true ↔ license_name name.
Proof.
  rewrite search_spec. unfold license_name, _LICENSE_FILE_PATTERN. split.
  - intros (before & rest & -> & H).
    apply matches_at_literal in H as (word & after & -> & Hword & H).
    + apply matches_at_extension in H. by exists before, word, after.
    + vm_compute. repeat constructor; discriminate.
  - intros (before & word & after & -> & Hword & H).
    exists before, (word ++ after). split; [done|].
    apply matches_at_literal.
    + vm_compute. repeat constructor; discriminate.
    + exists word, after. split_and!; [done | done |].
      by apply matches_at_extension.
Qed.

(** [List.find] returns the first element that passes the test. *)
Lemma find_first {A} (p : A → bool) (l : list A) :
  (∀ x, List.find p l = Some x ↔
        ∃ before after, l = before ++ x :: after ∧ p x = true ∧
                        Forall (fun y => p y = false) before) ∧
  (List.find p l = None ↔ Forall (fun y => p y = false) l).
Proof.
  induction l as [|a l [IHsome IHnone]]; simpl.
  - split; [|done]. intros x. split; [discriminate|].
    intros ([|? ?] & after & H & _); discriminate H.
  - destruct (p a) eqn:Ha.
    + split.
      * intros x. split.
        -- intros [= <-]. exists [], l. split_and!; [done | done | constructor].
        -- intros ([|b before] & after & Hl & Hx & Hbefore).
           ++ by injection Hl as <- _.
           ++ injection Hl as <- _.
              apply Forall_cons in Hbefore as [Hb _]. congruence.
      * split; [discriminate|]. intros H.
        apply Forall_cons in H as [H _]. congruence.
    + split.
      * intros x. rewrite IHsome. split.
        -- intros (before & after & -> & Hx & Hbefore).
           exists (a :: before), after. split_and!; [done | done | by constructor].
        -- intros ([|b before] & after & Hl & Hx & Hbefore).
           ++ injection Hl as <- _. congruence.
           ++ injection Hl as <- ->.
              apply Forall_cons in Hbefore as [_ Hbefore].
              by exists before, after.
      * rewrite IHnone. split; [by constructor|].
        intros H. by apply Forall_cons in H as [_ H].
Qed.

(** C8 (amended).  With no pretrained model name,
    [_maybe_get_license_filename] returns the first file of the listing whose
    name has, somewhere in it and with case ignored, "license" followed by
    the end of the name or by a dot and a letter, and [None] when the listing
    has no such file.  A bare "license" in any case is such a name, and so is
    "license" with an extension that starts with a letter; for [LICENSE.txt]
    and [README.md] the answer is [LICENSE.txt]. *)
Theorem license_filename_found listing rewritten :
  let found := _maybe_get_license_filename listing rewritten None in
  (∀ file, found = Some file ↔
     ∃ before after, listing = before ++ file :: after ∧ license_name file ∧
                     Forall (fun f => ¬ license_name f) before) ∧
  (found = None ↔ Forall (fun f => ¬ license_name f) listing) ∧
  (∀ word, Forall2 same_letter (codepoints "license") word →
     license_name word ∧
     ∀ x rest, is_letter x → license_name (word ++ 46%N :: x :: rest)) ∧
  _maybe_get_license_filename
    [codepoints "LICENSE.txt"; codepoints "README.md"] rewritten None
  = Some (codepoints "LICENSE.txt").
Proof.
  intros found.
  assert (Hfound : found = List.find (search _LICENSE_FILE_PATTERN) listing).
  { subst found. unfold _maybe_get_license_filename, first_license.
    by destruct (List.find _ listing). }
  assert (Hnot : ∀ l : list (list N),
            Forall (fun y => search _LICENSE_FILE_PATTERN y = false) l ↔
            Forall (fun f => ¬ license_name f) l).
  { intros l. apply Forall_iff. intros f.
    rewrite <- search_license_name. by destruct (search _ f). }
  destruct (find_first (search _LICENSE_FILE_PATTERN) listing) as [Hsome Hnone].
  rewrite Hfound. split_and!.
  - intros file. rewrite Hsome. split.
    + intros (before & after & -> & Hfile & Hbefore).
      exists before, after. split_and!; [done | by apply search_license_name |].
      by apply Hnot.
    + intros (before & after & -> & Hfile & Hbefore).
      exists before, after. split_and!; [done | by apply search_license_name |].
      by apply Hnot.
  - by rewrite Hnone, Hnot.
  - intros word Hword. split.
    + exists [], word, []. rewrite app_nil_r. split_and!; [done | done | by left].
    + intros x rest Hx. exists [], word, (46%N :: x :: rest).
      split_and!; [done | done |]. right; right. by exists x, rest.
  - reflexivity.
Qed.

(** A listing with [readme.md] first and [License.MD] second. *)
Lemma license_filename_found_witness :
  _maybe_get_license_filename
    [codepoints "readme.md"; codepoints "License.MD"] (fun _ => []) None
  = Some (codepoints "License.MD").
Proof.
  apply (proj1 (license_filename_found
                  [codepoints "readme.md"; codepoints "License.MD"]
                  (fun _ => [])) (codepoints "License.MD")).
  exists [codepoints "readme.md"], []. split_and!.
  - reflexivity.
  - apply search_license_name. reflexivity.
  - constructor; [|constructor]. intros H.
    apply search_license_name in H. discriminate H.
Defined.

(** [LICENSE.123] is "license" with an extension, and it is not found. *)
Lemma license_filename_counterexample :
  license_with_any_extension (codepoints "LICENSE.123") ∧
  _maybe_get_license_filename [codepoints "LICENSE.123"] (fun _ => []) None
  = None.
Proof.
  split; [|reflexivity].
  exists (codepoints "LICENSE"), (codepoints "123"). split.
  - replace (codepoints "license") with [108; 105; 99; 101; 110; 115; 101]%N
      by (vm_compute; reflexivity).
    replace (codepoints "LICENSE") with [76; 73; 67; 69; 78; 83; 69]%N
      by (vm_compute; reflexivity).
    repeat (constructor; [right; left; reflexivity|]). constructor.
  - right. split; [discriminate | reflexivity].
Qed.

(** ** More on [_is_last_batch]: when it raises *)

(** X1.  [_is_last_batch] raises [AssertionError] exactly when the elapsed
    fraction is not known to be at least 1.0 and either [max_duration] is
    missing, or the [1dur] case is reached with no dataloader length; it
    raises [ZeroDivisionError] exactly when the [1dur] case is reached and
    [ceil(max_epochs * steps_per_epoch)] is zero; it raises nothing else. *)
Theorem is_last_batch_raises self state :
  (_is_last_batch self state = Raise AssertionError ↔
   ¬ elapsed_at_least_one state ∧
   (max_duration state = None ∨
    (unit (save_interval self) = DURATION ∧
     (value (save_interval self) == 1)%Q ∧
     (∃ md, max_duration state = Some md ∧ unit md = EPOCH) ∧
     dataloader_len state = None))) ∧
  (_is_last_batch self state = Raise ZeroDivisionError ↔
   ¬ elapsed_at_least_one state ∧
   unit (save_interval self) = DURATION ∧
   (value (save_interval self) == 1)%Q ∧
   ∃ md len, max_duration state = Some md ∧ unit md = EPOCH ∧
             dataloader_len state = Some len ∧
             Qceiling (value md * inject_Z len) = 0) ∧
  (∀ e, _is_last_batch self state = Raise e →
        e = AssertionError ∨ e = ZeroDivisionError) ∧
  _is_last_batch self state ≠ OutOfFuel.
Proof.
  rewrite elapsed_at_least_one_spec. unfold _is_last_batch. cbv zeta.
  destruct (match get_elapsed_duration state with
            | Some e => Qle_bool 1 e | None => false end) eqn:Ha.
  { split_and!.
    - split; [discriminate | by intros [? _]].
    - split; [discriminate | by intros [? _]].
    - discriminate.
    - discriminate. }
  destruct (max_duration state) as [md|] eqn:Hmd.
  2:{ split_and!.
      - split; [intros _; split; [discriminate | by left] | done].
      - split; [discriminate|]. by intros (_ & _ & _ & md & len & [=] & _).
      - intros e [= <-]. by left.
      - discriminate. }
  destruct (TimeUnit_eqb (unit (save_interval self)) BATCH && _ && _) eqn:Hb.
  { apply andb_true_iff in Hb as [Hb _]. apply andb_true_iff in Hb as [Hb _].
    apply TimeUnit_eqb_eq in Hb.
    split_and!.
    - split; [discriminate|]. intros (_ & [[=] | (Hu & _)]). congruence.
    - split; [discriminate|]. intros (_ & Hu & _). congruence.
    - discriminate.
    - discriminate. }
  destruct (TimeUnit_eqb (unit (save_interval self)) DURATION
            && Qeq_bool (value (save_interval self)) 1
            && TimeUnit_eqb (unit md) EPOCH) eqn:Hc.
  - apply andb_true_iff in Hc as [Hc Hue]. apply andb_true_iff in Hc as [Hu Hv].
    apply TimeUnit_eqb_eq in Hu, Hue. apply Qeq_bool_iff in Hv.
    destruct (dataloader_len state) as [len|] eqn:Hlen.
    + unfold py_mod.
      destruct (Qceiling (value md * inject_Z len) =? 0) eqn:Hz; simpl.
      * apply Z.eqb_eq in Hz. split_and!.
        -- split; [discriminate|]. intros (_ & [[=] | (_ & _ & _ & [=])]).
        -- split; [|done]. intros _. split_and!; try done.
           by exists md, len.
        -- intros e [= <-]. by right.
        -- discriminate.
      * apply Z.eqb_neq in Hz. split_and!.
        -- split; [discriminate|]. intros (_ & [[=] | (_ & _ & _ & [=])]).
        -- split; [discriminate|].
           intros (_ & _ & _ & md' & len' & Hmd' & _ & Hlen' & Hzero).
           simplify_eq.
        -- discriminate.
        -- discriminate.
    + split_and!.
      * split; [|done]. intros _. split; [discriminate|]. right.
        split_and!; try done. by exists md.
      * split; [discriminate|].
        by intros (_ & _ & _ & md' & len' & _ & _ & [=] & _).
      * intros e [= <-]. by left.
      * discriminate.
  - assert (Hno : ¬ (unit (save_interval self) = DURATION ∧
                     (value (save_interval self) == 1)%Q ∧ unit md = EPOCH)).
    { intros (Hu & Hv & Hue). apply TimeUnit_eqb_eq in Hu, Hue.
      apply Qeq_bool_iff in Hv. rewrite Hu, Hv, Hue in Hc. discriminate Hc. }
    split_and!.
    + split; [discriminate|].
      intros (_ & [[=] | (Hu & Hv & (md' & Hmd' & Hue) & _)]).
      simplify_eq. exfalso. by apply Hno.
    + split; [discriminate|].
      intros (_ & Hu & Hv & md' & len & Hmd' & Hue & _).
      simplify_eq. exfalso. by apply Hno.
    + discriminate.
    + discriminate.
Qed.

(** A run of two epochs whose dataloader is empty: the [1dur] case divides
    by zero. *)
Lemma is_last_batch_raises_witness :
  _is_last_batch example_checkpointer
    {| get_elapsed_duration := None;
       max_duration := Some {| value := 2; unit := EPOCH |};
       dataloader_len := Some 0;
       timestamp := {| epoch := 0; batch := 0; batch_in_epoch := 0 |};
       model := IsOtherModel "ComposerModel";
       callbacks := [] |} = Raise ZeroDivisionError.
Proof.
  apply (proj1 (proj2 (is_last_batch_raises _ _))). split_and!.
  - intros (e & [=] & _).
  - reflexivity.
  - reflexivity.
  - eexists _, _. split_and!; reflexivity.
Defined.

(** X2.  With a [1dur] interval, a maximum duration of a whole number [n] of
    epochs and [len] batches per epoch ([n * len] not zero), and the elapsed
    fraction below 1.0 or unknown, [_is_last_batch] returns whether the batch
    index is a multiple of [n * len]: the ceiling does nothing, and batch 0
    counts as a last batch. *)
Theorem is_last_batch_one_dur self state n len :
  unit (save_interval self) = DURATION →
  (value (save_interval self) == 1)%Q →
  max_duration state = Some {| value := inject_Z n; unit := EPOCH |} →
  dataloader_len state = Some len →
  n * len ≠ 0 →
  ¬ elapsed_at_least_one state →
  _is_last_batch self state
  = Ok (bool_decide (batch (timestamp state) mod (n * len) = 0)) ∧
  (batch (timestamp state) = 0 → _is_last_batch self state = Ok true).
Proof.
  intros Hu Hv Hmd Hlen Hnz Ha.
  assert (Hrun : _is_last_batch self state
                 = Ok (bool_decide (batch (timestamp state) mod (n * len) = 0))).
  { rewrite elapsed_at_least_one_spec in Ha. apply not_true_is_false in Ha.
    unfold _is_last_batch. cbv zeta. rewrite Ha, Hmd, Hlen, Hu. simpl.
    apply Qeq_bool_iff in Hv. rewrite Hv. simpl.
    rewrite <- inject_Z_mult, Qceiling_Z.
    unfold py_mod. apply Z.eqb_neq in Hnz. rewrite Hnz. simpl.
    f_equal. destruct (Z.eqb_spec (batch (timestamp state) mod (n * len)) 0).
    - by rewrite bool_decide_eq_true_2.
    - by rewrite bool_decide_eq_false_2. }
  split; [exact Hrun|].
  intros Hzero. rewrite Hrun, Hzero. by rewrite Z.mod_0_l.
Qed.

(** Three epochs of ten batches: batch 0 is taken for a last batch. *)
Lemma is_last_batch_one_dur_witness :
  _is_last_batch example_checkpointer
    (example_state (Some 0%Q) {| epoch := 0; batch := 0; batch_in_epoch := 0 |})
  = Ok true.
Proof.
  refine (proj2 (is_last_batch_one_dur example_checkpointer
            (example_state (Some 0%Q)
               {| epoch := 0; batch := 0; batch_in_epoch := 0 |})
            3 10 eq_refl _ eq_refl eq_refl _ _) eq_refl).
  - reflexivity.
  - discriminate.
  - intros (e & [= <-] & H). by apply Qle_bool_iff in H.
Defined.

(** ** More on the events *)

(** X3.  [_all_child_processes_done] answers [True] exactly when no process of
    this rank is alive and no other rank contributes a positive value to the
    reduction: one live process on any rank keeps every rank waiting. *)
Theorem all_child_processes_done_iff world self k :
  _all_child_processes_done world self k = true ↔
  Forall (fun p => is_alive world k p = false) (child_processes self) ∧
  Forall (fun y => y <= 0) (peers world k).
Proof.
  unfold _all_child_processes_done. cbv zeta. rewrite Z.eqb_eq.
  destruct (existsb (is_alive world k) (child_processes self)) eqn:Halive.
  - rewrite all_reduce_max_zero by lia. split; [by intros [[=] _]|].
    intros [Hnone _]. apply existsb_exists in Halive as (p & Hp & Hyes).
    rewrite Forall_forall in Hnone. apply list_elem_of_In in Hp.
    specialize (Hnone p Hp). congruence.
  - rewrite all_reduce_max_zero by lia. split.
    + intros [_ Hpeers]. split; [|done].
      apply Forall_forall. intros p Hp. apply list_elem_of_In in Hp.
      destruct (is_alive world k p) eqn:Hyes; [|done].
      assert (existsb (is_alive world k) (child_processes self) = true)
        by (apply existsb_exists; eauto).
      congruence.
    + by intros [_ Hpeers].
Qed.

Lemma is_last_batch_set_marker v self state :
  _is_last_batch (set_last_checkpoint_batch v self) state
  = _is_last_batch self state.
Proof. reflexivity. Qed.

Lemma register_loop_started use_temp_dir temp_dir world loggers : ∀ i self,
  let out := register_loop world use_temp_dir temp_dir i loggers self in
  child_processes out.2 = child_processes self ++ started_processes out.1 ∧
  length (started_processes out.1) = length loggers ∧
  removed_dirs out.1 = [] ∧
  temp_save_dir out.2
  = (if use_temp_dir
     then match loggers with [] => temp_save_dir self | _ => Some temp_dir end
     else temp_save_dir self) ∧
  mlflow_loggers out.2 = mlflow_loggers self ∧
  using_peft out.2 = using_peft self.
Proof.
  induction loggers as [|l rest IH]; intros i self; cbn [register_loop].
  - simpl. rewrite app_nil_r. by destruct use_temp_dir.
  - match goal with |- context [register_loop _ _ _ (S i) rest ?s] =>
      destruct (IH (S i) s) as (Hc & Hn & Hr & Ht & Hl & Hp);
      destruct (register_loop world use_temp_dir temp_dir (S i) rest s)
        as [trace self'] end.
    cbn [fst snd] in *. split_and!.
    + rewrite Hc. destruct use_temp_dir; simpl; by rewrite <- app_assoc.
    + simpl. by rewrite Hn.
    + exact Hr.
    + rewrite Ht. destruct use_temp_dir; [|done]. by destruct rest.
    + rewrite Hl. by destruct use_temp_dir.
    + rewrite Hp. by destruct use_temp_dir.
Qed.

Lemma is_last_batch_has_outcome self state :
  _is_last_batch self state ≠ OutOfFuel.
Proof.
  unfold _is_last_batch, py_mod. cbv zeta.
  repeat match goal with
         | |- context [match ?x with _ => _ end] => destruct x
         end; discriminate.
Qed.

(** The ways through [_save_checkpoint]. *)
Lemma save_checkpoint_cases world self state :
  let b := batch (timestamp state) in
  let self0 := set_last_checkpoint_batch (Some b) self in
  let use_temp_dir := bool_decide (is_Some (remote_ud self)) in
  let temp_dir :=
    if use_temp_dir then mkdtemp world
    else format_name_with_dist_and_time world
           (os_path_join (save_dir_format_str self)
                         (huggingface_folder_name_fstr self))
           (timestamp state) in
  let cleanup := if use_temp_dir then [Rmtree temp_dir] else [] in
  let loop := register_loop world use_temp_dir temp_dir 0
                (mlflow_loggers self) self0 in
  (get_global_rank world ≠ 0 ∧
   _save_checkpoint world self state = ([SaveCheckpoint b], Ok self0)) ∨
  (get_global_rank world = 0 ∧
   (truthy_name (mlflow_registered_model_name self) = false
    ∨ (truthy_name (mlflow_registered_model_name self) = true ∧
       _is_last_batch self state = Ok false)) ∧
   _save_checkpoint world self state
   = (SaveCheckpoint b :: cleanup, Ok self0)) ∨
  (registers world self state ∧
   _save_checkpoint world self state
   = (SaveCheckpoint b :: loop.1, Ok loop.2)) ∨
  (get_global_rank world = 0 ∧
   truthy_name (mlflow_registered_model_name self) = true ∧
   ∃ e, _is_last_batch self state = Raise e ∧
        _save_checkpoint world self state = ([SaveCheckpoint b], Raise e)).
Proof.
  intros b self0 use_temp_dir temp_dir cleanup loop.
  assert (Hpair : ∀ p : list Effect * HuggingFaceCheckpointer,
            (let '(trace, self1) := p in
             ([SaveCheckpoint b] ++ trace, Ok self1))
            = (SaveCheckpoint b :: p.1, Ok p.2)) by (by intros []).
  unfold _save_checkpoint. cbv zeta.
  rewrite is_last_batch_set_marker.
  change (mlflow_registered_model_name (set_last_checkpoint_batch _ self))
    with (mlflow_registered_model_name self).
  destruct (Z.eqb_spec (get_global_rank world) 0) as [Hrank | Hrank];
    [|by left].
  right.
  destruct (truthy_name (mlflow_registered_model_name self)) eqn:Hname;
    [|left; split_and!; [done | by left | reflexivity]].
  pose proof (is_last_batch_has_outcome self state) as Hfuel.
  destruct (_is_last_batch self state) as [[|]|e|] eqn:Hlast; [| | |done].
  - right; left. split; [done|]. exact (Hpair loop).
  - left. split_and!; [done | by right | reflexivity].
  - right; right. split_and!; [done | done |]. by exists e.
Qed.




(** X5.  The temporary directory.  [_save_checkpoint] removes a directory exactly
    when it runs on rank 0 with a remote destination and does not go on to
    the registry, and the directory is then the temporary one it made.  When
    it does go on to the registry with a remote destination and at least one
    MLflow logger, it keeps the directory and remembers it in
    [temp_save_dir]; in every other case [temp_save_dir] stays as it was. *)
Theorem save_checkpoint_temp_dir world self state :
  let trace := (_save_checkpoint world self state).1 in
  let r := (_save_checkpoint world self state).2 in
  let cleans :=
    get_global_rank world = 0 ∧ is_Some (remote_ud self) ∧
    (truthy_name (mlflow_registered_model_name self) = false
     ∨ _is_last_batch self state = Ok false) in
  (cleans → removed_dirs trace = [mkdtemp world]) ∧
  (¬ cleans → removed_dirs trace = []) ∧
  (∀ self', r = Ok self' →
     (registers world self state → is_Some (remote_ud self) →
      mlflow_loggers self ≠ [] → temp_save_dir self' = Some (mkdtemp world)) ∧
     (¬ (registers world self state ∧ is_Some (remote_ud self)
         ∧ mlflow_loggers self ≠ []) →
      temp_save_dir self' = temp_save_dir self)).
Proof.
  intros trace r cleans. subst trace r cleans.
  pose proof (register_loop_started
    (bool_decide (is_Some (remote_ud self)))
    (if bool_decide (is_Some (remote_ud self)) then mkdtemp world
     else format_name_with_dist_and_time world
            (os_path_join (save_dir_format_str self)
                          (huggingface_folder_name_fstr self))
            (timestamp state))
    world (mlflow_loggers self) 0%nat
    (set_last_checkpoint_batch (Some (batch (timestamp state))) self))
    as (_ & _ & Hr & Ht & _).
  destruct (save_checkpoint_cases world self state)
    as [[Hrank ->] | [(Hrank & Hno & ->) | [[Hreg ->] | (Hrank & Hname & e & He & ->)]]];
    cbn [fst snd].
  - split_and!.
    + by intros [? _].
    + done.
    + intros self' [= <-]. split; [by intros [? _] | done].
  - destruct (bool_decide (is_Some (remote_ud self))) eqn:Hud.
    + apply bool_decide_eq_true in Hud. split_and!.
      * done.
      * intros Hnot. exfalso. apply Hnot. split_and!; [done | done |].
        destruct Hno as [? | [_ ?]]; [by left | by right].
      * intros self' [= <-]. split; [|done].
        intros (_ & Hname & Hlast). destruct Hno as [? | [_ ?]]; congruence.
    + apply bool_decide_eq_false in Hud. split_and!.
      * by intros (_ & ? & _).
      * done.
      * intros self' [= <-]. split; [|done]. by intros _ ?.
  - destruct Hreg as (Hrank & Hname & Hlast). split_and!.
    + intros (_ & _ & [? | ?]); congruence.
    + intros _. simpl. exact Hr.
    + intros self' [= <-]. rewrite Ht. split.
      * intros _ Hud Hloggers.
        rewrite bool_decide_eq_true_2 by done.
        by destruct (mlflow_loggers self).
      * intros Hnot. destruct (bool_decide (is_Some (remote_ud self))) eqn:Hud;
          [|done].
        apply bool_decide_eq_true in Hud.
        destruct (mlflow_loggers self) eqn:Hl; [done|].
        exfalso. apply Hnot. split_and!; [by split_and! | done | done].
  - split_and!.
    + intros (_ & _ & [? | ?]); congruence.
    + done.
    + discriminate.
Qed.

(** With a remote destination, a checkpoint at batch 7 of the example run is
    not the last one: the temporary directory is removed at once. *)
Lemma save_checkpoint_temp_dir_witness :
  removed_dirs
    (_save_checkpoint example_world example_remote_checkpointer
       (example_state (Some (7 # 30))
                      {| epoch := 0; batch := 7; batch_in_epoch := 7 |})).1
  = ["/tmp/tmpdir"].
Proof.
  apply (proj1 (save_checkpoint_temp_dir example_world
    example_remote_checkpointer
    (example_state (Some (7 # 30))
                   {| epoch := 0; batch := 7; batch_in_epoch := 7 |}))).
  split_and!; [reflexivity | by eexists | by right].
Defined.

(** X6.  A registered model name that is the empty string.  [INIT] asks for an
    MLflow logger as for any other name, and [_save_checkpoint] never goes on
    to the registry: it starts no process and leaves [child_processes] as
    they are. *)
Theorem empty_registered_model_name world self :
  mlflow_registered_model_name self = Some "" →
  (∀ state logger m,
     model state = IsHuggingFaceModel m →
     Forall (fun d => is_MLFlowLogger d = false) (destinations logger) →
     ∃ msg, (on_init self state logger).2 = Raise (ValueError msg)) ∧
  (∀ state,
     started_processes (_save_checkpoint world self state).1 = [] ∧
     ∃ self', (_save_checkpoint world self state).2 = Ok self' ∧
              child_processes self' = child_processes self).
Proof.
  intros Hname. split.
  - intros state logger m Hm Hnone. apply filter_MLFlowLogger_nil in Hnone.
    unfold on_init. rewrite Hm, Hname, Hnone.
    destruct (remote_ud self); by eexists.
  - intros state.
    destruct (save_checkpoint_cases world self state)
      as [[Hrank ->] | [(Hrank & Hno & ->) | [[Hreg ->] | (Hrank & Htruthy & _)]]];
      cbn [fst snd].
    + split; [done|]. by eexists.
    + split; [by destruct (bool_decide _)|]. by eexists.
    + destruct Hreg as (_ & Htruthy & _). rewrite Hname in Htruthy. done.
    + rewrite Hname in Htruthy. done.
Qed.

(** X7.  What a successful [INIT] leaves.  The adapter flag is that of the model;
    with a registered model name the callback holds the MLflow loggers among
    the destinations, in their order, and there is at least one; the remote
    uploader, if there is one, is appended to the callbacks of the state; the
    marker, the processes and the temporary directory are untouched. *)
Theorem init_discovers self state logger self' state' :
  (on_init self state logger).2 = Ok (self', state') →
  (∃ m, model state = IsHuggingFaceModel m ∧ using_peft self' = hf_using_peft m) ∧
  (is_Some (mlflow_registered_model_name self) →
   mlflow_loggers self'
   = filter (fun d => is_MLFlowLogger d = true) (destinations logger) ∧
   mlflow_loggers self' ≠ []) ∧
  (mlflow_registered_model_name self = None →
   mlflow_loggers self' = mlflow_loggers self) ∧
  callbacks state' = callbacks state ++ remote_ud_callbacks self ∧
  last_checkpoint_batch self' = last_checkpoint_batch self ∧
  child_processes self' = child_processes self ∧
  temp_save_dir self' = temp_save_dir self ∧
  dtype self' = dtype self ∧
  save_interval self' = save_interval self.
Proof.
  unfold on_init, remote_ud_callbacks.
  destruct (model state) as [m| |]; [|discriminate..].
  destruct (remote_ud self) as [ud|];
    destruct (mlflow_registered_model_name self) as [name|]; simpl.
  all: try (destruct (filter _ (destinations logger)) as [|d found] eqn:Hf;
            simpl; [discriminate|]).
  all: intros [= <- <-]; simpl; rewrite ?app_nil_r;
    split_and!; try done; try (by exists m); try (by intros [? [=]]).
Qed.

(** The logger of the example with an MLflow logger among its destinations:
    [INIT] returns and the callback holds that logger. *)
Lemma init_discovers_witness :
  ∃ self' state',
    (on_init example_checkpointer
       (example_state None {| epoch := 0; batch := 0; batch_in_epoch := 0 |})
       {| destinations := [OtherLogger "wandb"; MLFlowLogger "run-1"] |}).2
    = Ok (self', state') ∧
    mlflow_loggers self' = [MLFlowLogger "run-1"].
Proof.
  eexists _, _. split; [reflexivity|].
  refine (proj1 (proj1 (proj2 (init_discovers example_checkpointer
    (example_state None {| epoch := 0; batch := 0; batch_in_epoch := 0 |})
    {| destinations := [OtherLogger "wandb"; MLFlowLogger "run-1"] |}
    _ _ eq_refl)) _)).
  by eexists.
Defined.

(** At the end of the example run, with an MLflow logger at hand, the
    callback with the empty name starts nothing. *)
Lemma empty_registered_model_name_witness :
  started_processes
    (_save_checkpoint example_world example_empty_name_checkpointer
       (example_state (Some 1%Q)
                      {| epoch := 3; batch := 30; batch_in_epoch := 0 |})).1
  = [].
Proof.
  exact (proj1 (proj2 (empty_registered_model_name example_world
           example_empty_name_checkpointer eq_refl)
           (example_state (Some 1%Q)
              {| epoch := 3; batch := 30; batch_in_epoch := 0 |}))).
Defined.

Lemma started_processes_app t1 t2 :
  started_processes (t1 ++ t2) = started_processes t1 ++ started_processes t2.
Proof. apply omap_app. Qed.

Lemma started_processes_waiting_polls world self k n :
  started_processes (waiting_polls world self k n) = [].
Proof.
  revert k. induction n as [|n IH]; intros k; [done|].
  rewrite waiting_polls_S. simpl. apply IH.
Qed.

Lemma on_fit_end_started world fuel self :
  started_processes (on_fit_end world fuel self).1 = [].
Proof.
  destruct (on_fit_end_spec world self fuel) as (n & _ & Hend).
  inversion Hend;
    rewrite ?started_processes_app, started_processes_waiting_polls;
    simpl; by destruct (temp_save_dir self).
Qed.

Lemma on_init_children self state logger :
  started_processes (on_init self state logger).1 = [] ∧
  ∀ self' state', (on_init self state logger).2 = Ok (self', state') →
                  child_processes self' = child_processes self.
Proof.
  unfold on_init. destruct (model state); [|done..].
  destruct (remote_ud self); destruct (mlflow_registered_model_name self);
    simpl; try destruct (_ =? _)%nat; simpl;
    (split; [by rewrite ?started_processes_app | by intros ?? [= <- <-]]) || done.
Qed.

Lemma save_checkpoint_children world self state self' :
  (_save_checkpoint world self state).2 = Ok self' →
  child_processes self'
  = child_processes self ++ started_processes (_save_checkpoint world self state).1.
Proof.
  pose proof (register_loop_started
    (bool_decide (is_Some (remote_ud self)))
    (if bool_decide (is_Some (remote_ud self)) then mkdtemp world
     else format_name_with_dist_and_time world
            (os_path_join (save_dir_format_str self)
                          (huggingface_folder_name_fstr self))
            (timestamp state))
    world (mlflow_loggers self) 0%nat
    (set_last_checkpoint_batch (Some (batch (timestamp state))) self))
    as (Hc & _).
  destruct (save_checkpoint_cases world self state)
    as [[Hrank ->] | [(Hrank & Hno & ->) | [[Hreg ->] | (Hrank & Hname & e & He & ->)]]];
    cbn [fst snd].
  - intros [= <-]. simpl. by rewrite app_nil_r.
  - intros [= <-]. destruct (bool_decide _); simpl; by rewrite app_nil_r.
  - intros [= <-]. exact Hc.
  - discriminate.
Qed.

Lemma run_event_children world fuel self event state logger fires self' state' :
  (run_event world fuel self event state logger fires).2 = Ok (self', state') →
  child_processes self'
  = child_processes self
    ++ started_processes (run_event world fuel self event state logger fires).1.
Proof.
  unfold run_event. destruct (saves_now self state fires).
  - pose proof (save_checkpoint_children world self state) as H.
    destruct (_save_checkpoint world self state) as [trace [s|e|]];
      cbn [fst snd] in *; [|discriminate..].
    simpl. intros [= <- <-]. by apply H.
  - destruct (Event_eqb event INIT).
    { destruct (on_init_children self state logger) as [Hnone Hsame].
      intros H. rewrite Hnone, app_nil_r. by eapply Hsame. }
    destruct (Event_eqb event FIT_END).
    + pose proof (on_fit_end_started world fuel self) as Hnone.
      destruct (on_fit_end world fuel self) as [trace [[]|e|]];
        cbn [fst snd] in *; [|discriminate..].
      simpl. intros [= <- <-]. by rewrite Hnone, app_nil_r.
    + intros [= <- <-]. simpl. by rewrite app_nil_r.
Qed.

(** X8.  Along any sequence of events, when the run returns, the processes of the
    callback are those it had at the start followed by every process started
    during the run, in order: no started process is lost before the wait at
    [FIT_END]. *)
Theorem started_processes_are_tracked world fuel logger ticks : ∀ self self',
  (run_events world fuel logger self ticks).2 = Ok self' →
  child_processes self'
  = child_processes self
    ++ started_processes (run_events world fuel logger self ticks).1.
Proof.
  induction ticks as [|t rest IH]; intros self self'; cbn [run_events].
  - intros [= <-]. simpl. by rewrite app_nil_r.
  - pose proof (run_event_children world fuel self (tick_event t)
                  (tick_state t) logger (tick_fires t)) as Hstep.
    destruct (run_event world fuel self (tick_event t) (tick_state t) logger
                (tick_fires t)) as [trace1 [[self1 state1]|e|]];
      cbn [fst snd] in *; [|discriminate..].
    specialize (Hstep self1 state1 eq_refl).
    specialize (IH self1 self').
    destruct (run_events world fuel logger self1 rest) as [trace2 r2];
      cbn [fst snd] in *.
    intros Hr. rewrite (IH Hr), Hstep, started_processes_app.
    by rewrite app_assoc.
Qed.

(** The last batch of the example run and then [FIT_END], with a remote
    destination and one MLflow logger: one process is started, and it is the
    one the callback holds at the end. *)
Lemma started_processes_are_tracked_witness :
  let ticks :=
    [ {| tick_event := BATCH_CHECKPOINT;
         tick_state := example_state (Some 1%Q)
           {| epoch := 3; batch := 30; batch_in_epoch := 0 |};
         tick_fires := true |};
      {| tick_event := FIT_END;
         tick_state := example_state (Some 1%Q)
           {| epoch := 3; batch := 30; batch_in_epoch := 0 |};
         tick_fires := false |} ] in
  ∃ self',
    (run_events example_world 5 example_logger example_remote_checkpointer
       ticks).2 = Ok self' ∧
    child_processes self'
    = child_processes example_remote_checkpointer
      ++ started_processes
           (run_events example_world 5 example_logger
              example_remote_checkpointer ticks).1.
Proof.
  intros ticks. eexists. split; [reflexivity|].
  apply (started_processes_are_tracked example_world 5 example_logger ticks
           example_remote_checkpointer).
  reflexivity.
Defined.

(** ** More on the state dict hook and on the stamping *)

Lemma hooked_value_idempotent cast world self v :
  (∀ d q, cast d (cast d q) = cast d q) →
  hooked_value cast world self (hooked_value cast world self v)
  = hooked_value cast world self v.
Proof.
  intros Hcast.
  assert (Hto : ∀ t, Tensor_to cast (dtype self) (Tensor_to cast (dtype self) t)
                     = Tensor_to cast (dtype self) t).
  { intros t. unfold Tensor_to. simpl. f_equal.
    rewrite map_map. apply map_ext. intros q. apply Hcast. }
  destruct v as [full|t| |n]; simpl; try done.
  - destruct (get_global_rank world =? 0); simpl; by rewrite ?Hto.
  - by rewrite Hto.
Qed.

(** X9.  The hook runs once for every module that holds an entry, so an entry of
    a nested module is hooked several times.  With a rounding that does
    nothing to a value already rounded, hooking a hooked dict changes
    nothing, on every rank. *)
Theorem tensor_hook_idempotent cast world self state_dict :
  (∀ d q, cast d (cast d q) = cast d q) →
  tensor_hook cast world self (tensor_hook cast world self state_dict)
  = tensor_hook cast world self state_dict.
Proof.
  intros Hcast.
  destruct (Z.eqb_spec (get_global_rank world) 0) as [Hrank | Hrank].
  - rewrite !tensor_hook_rank0 by done. rewrite <- map_fmap_compose.
    apply map_fmap_ext. intros k v _. simpl.
    by apply hooked_value_idempotent.
  - unfold tensor_hook. apply Z.eqb_neq in Hrank. rewrite Hrank. simpl.
    reflexivity.
Qed.

Lemma tensor_hook_idempotent_witness :
  tensor_hook example_cast example_world example_checkpointer
    (tensor_hook example_cast example_world example_checkpointer
       example_state_dict)
  = tensor_hook example_cast example_world example_checkpointer
      example_state_dict.
Proof.
  apply tensor_hook_idempotent. reflexivity.
Defined.

(** X10.  On rank 0 the hook moves only gathered [DTensor]s: a plain tensor stays
    on its device, and no tensor of either kind changes its number of
    elements. *)
Theorem tensor_hook_keeps_shape cast world self state_dict :
  get_global_rank world = 0 →
  let gathered := tensor_hook cast world self state_dict in
  (∀ fqn t, state_dict !! fqn = Some (IsTensor t) →
     ∃ t', gathered !! fqn = Some (IsTensor t') ∧
           tensor_device t' = tensor_device t ∧
           length (tensor_elements t') = length (tensor_elements t)) ∧
  (∀ fqn full, state_dict !! fqn = Some (IsDTensor full) →
     ∃ t', gathered !! fqn = Some (IsTensor t') ∧
           tensor_device t' = CPU ∧
           length (tensor_elements t') = length (tensor_elements full)).
Proof.
  intros Hrank gathered. subst gathered. rewrite tensor_hook_rank0 by done.
  split.
  - intros fqn t Ht. rewrite lookup_fmap, Ht. simpl.
    eexists. split_and!; [reflexivity | reflexivity |].
    simpl. apply length_map.
  - intros fqn full Ht. rewrite lookup_fmap, Ht. simpl. rewrite Hrank. simpl.
    eexists. split_and!; [reflexivity | reflexivity |].
    simpl. apply length_map.
Qed.

(** The mask of the example stays on the GPU. *)
Lemma tensor_hook_keeps_shape_witness :
  ∃ t', tensor_hook example_cast example_world example_checkpointer
          example_state_dict !! "model.mask" = Some (IsTensor t') ∧
        tensor_device t' = CUDA ∧
        length (tensor_elements t') = 2%nat.
Proof.
  exact (proj1 (tensor_hook_keeps_shape example_cast example_world
                  example_checkpointer example_state_dict eq_refl)
           "model.mask" _ eq_refl).
Defined.

(** X11.  The stamping touches the names only.  Without a pretrained model name
    the model is left as it is; for a model that uses no adapter, the base
    model and the adapter configs are left as they are; and an adapter
    config keeps its key and its type in every case. *)
Theorem stamping_changes_names_only self m :
  let m' := stamp_pretrained_model_name self m in
  (pretrained_model_name self = PNone → m' = m) ∧
  (using_peft self = false →
   base_model m' = base_model m ∧ peft_config m' = peft_config m) ∧
  dom (peft_config m') = dom (peft_config m) ∧
  (∀ k c', peft_config m' !! k = Some c' →
     ∃ c, peft_config m !! k = Some c ∧ peft_type c' = peft_type c).
Proof.
  intros m'. subst m'. unfold stamp_pretrained_model_name.
  assert (Hloop : ∀ name (configs : gmap string PeftConfig),
            foldl (stamp_step name) configs (map_to_list configs).*1
            = set_base_model_name_or_path name <$> configs).
  { intros name configs. apply foldl_keys_fmap. intros. apply stamp_step_local. }
  assert (Htypes : ∀ name k c',
            (set_base_model_name_or_path name <$> peft_config m) !! k = Some c' →
            ∃ c, peft_config m !! k = Some c ∧ peft_type c' = peft_type c).
  { intros name k c'. rewrite lookup_fmap.
    destruct (peft_config m !! k) as [c|]; simpl; [|done].
    intros [= <-]. by exists c. }
  destruct (pretrained_model_name self) eqn:Hname;
    destruct (using_peft self) eqn:Hpeft; simpl; rewrite ?Hloop;
    split_and!; try done; try apply dom_fmap_L; try apply Htypes;
    try (by destruct m); by eauto.
Qed.

(** ** More on [transform_config]: when it raises, what it keeps *)

Lemma transform_config_unfold store original_config attributes :
  store !! original_config = Some attributes →
  transform_config store original_config
  = (fun new => (<[fresh (dom store) := new]> store, fresh (dom store)))
      <$> transform_copied_config attributes.
Proof.
  intros Ho. unfold transform_config, deepcopy. rewrite Ho. simpl.
  rewrite lookup_insert_eq.
  destruct (transform_copied_config attributes) as [new|e|]; simpl; [|done..].
  by rewrite insert_insert_eq.
Qed.

(** X12.  [transform_config] returns for every config that is not an MPT config;
    for an MPT config it returns exactly when [attn_config] is a dictionary
    and [ffn_config] is absent, a dictionary, or a list or string without
    ["moe_world_size"].  A missing [attn_config] gives [AttributeError], an
    [attn_config] that is no dictionary gives [TypeError]. *)
Theorem transform_config_returns store original_config attributes :
  store !! original_config = Some attributes →
  ((∃ r, transform_config store original_config = Ok r) ↔
   is_str "mpt" (model_type attributes) = false
   ∨ ((∃ d, attributes !! "attn_config" = Some (PDict d))
      ∧ ffn_config_accepted attributes)) ∧
  (is_str "mpt" (model_type attributes) = true →
   attributes !! "attn_config" = None →
   transform_config store original_config = Raise (AttributeError "attn_config")) ∧
  (is_str "mpt" (model_type attributes) = true →
   ∀ v, attributes !! "attn_config" = Some v → (∀ d, v ≠ PDict d) →
        ∃ what, transform_config store original_config = Raise (TypeError what)).
Proof.
  intros Ho. rewrite (transform_config_unfold _ _ _ Ho).
  unfold transform_copied_config, ffn_config_accepted, setitem_in_attribute.
  destruct (is_str "mpt" (model_type attributes)) eqn:Hmpt.
  2:{ split_and!; [|done..]. split; [by left | intros _; by eexists]. }
  destruct (attributes !! "attn_config") as [v|] eqn:Hattn.
  2:{ split_and!; [|done..]. simpl. split; [by intros [? [=]]|].
      intros [[=] | [[d [=]] _]]. }
  destruct v as [| | | |l|d]; simpl.
  1-5: split_and!; [ split; [by intros [? [=]] | intros [[=] | [[d [=]] _]]]
                   | done | intros _ v [= <-] _; by eexists ].
  rewrite lookup_insert_ne, lookup_insert_ne by done.
  split_and!; [| done | intros _ v [= <-] Hv; by destruct (Hv d)].
  destruct (attributes !! "ffn_config") as [[| | | |l|f]|] eqn:Hffn; simpl.
  - split; [by intros [? [=]] | by intros [[=] | [_ []]]].
  - split; [by intros [? [=]] | by intros [[=] | [_ []]]].
  - split; [by intros [? [=]] | by intros [[=] | [_ []]]].
  - destruct (str_contains "moe_world_size" s) eqn:Hs; simpl.
    + try (rewrite lookup_insert_ne, lookup_insert_ne, Hffn by done); simpl.
      split; [by intros [? [=]] | by intros [[=] | [_ [=]]]].
    + split; [intros _; right; split; [by exists d | done] | intros _; by eexists].
  - destruct (existsb (is_str "moe_world_size") l) eqn:Hl; simpl.
    + try (rewrite lookup_insert_ne, lookup_insert_ne, Hffn by done); simpl.
      split; [by intros [? [=]] | by intros [[=] | [_ [=]]]].
    + split; [intros _; right; split; [by exists d | done] | intros _; by eexists].
  - split; [intros _; right; split; [by exists d | done]|]. intros _.
    destruct (bool_decide (is_Some (f !! "moe_world_size"))); simpl.
    + try (rewrite lookup_insert_ne, lookup_insert_ne, Hffn by done); simpl.
      by eexists.
    + by eexists.
  - split; [intros _; right; split; [by exists d | done] | intros _; by eexists].
Qed.

(** The MPT config of the example has a dictionary for [attn_config] and
    for [ffn_config]: the call returns. *)
Lemma transform_config_returns_witness :
  ∃ r, transform_config example_store 0%nat = Ok r.
Proof.
  apply (proj1 (transform_config_returns example_store 0%nat
                  example_mpt_config eq_refl)).
  right. split; [by eexists | exact I].
Defined.

(** X13.  The config that [transform_config] returns is a new object, not the
    original; it has the [model_type] of the original and every attribute
    name that the original has. *)
Theorem transform_config_new_object store original_config attributes store' copied :
  store !! original_config = Some attributes →
  transform_config store original_config = Ok (store', copied) →
  copied ≠ original_config ∧
  ∃ new, store' !! copied = Some new ∧
         model_type new = model_type attributes ∧
         dom attributes ⊆ dom new.
Proof.
  intros Ho Hrun.
  apply transform_config_Ok in Hrun
    as (attributes' & new & Ho' & -> & Hfresh & Hnew & ->).
  rewrite Ho in Ho'. injection Ho' as <-. split.
  - intros Heq. apply Hfresh. rewrite Heq. apply elem_of_dom. by eexists.
  - exists new. rewrite lookup_insert_eq. split; [done|].
    destruct (transform_copied_config_Ok _ _ Hnew)
      as [[_ ->] | (_ & d & Hd & Hcases)]; [done|].
    cbv zeta in Hcases.
    destruct Hcases as [(f & Hf & Hmoe & ->) | (Hc & ->)];
      rewrite !model_type_insert_ne by done;
      (split; [done|]); rewrite !dom_insert; set_solver.
Qed.

Lemma transform_config_new_object_witness :
  ∃ store' copied,
    transform_config example_store 1%nat = Ok (store', copied) ∧
    copied ≠ 1%nat.
Proof.
  eexists _, _. split; [reflexivity|].
  exact (proj1 (transform_config_new_object example_store 1%nat
                  example_llama_config _ _ eq_refl eq_refl)).
Defined.

(** ** More on the license file *)

(** The matcher looks at the continuation only through its values. *)
Lemma matches_at_ext r : ∀ s k1 k2,
  (∀ rest, k1 rest = k2 rest) → matches_at r s k1 = matches_at r s k2.
Proof.
  induction r as [c|lo hi|r1 IH1 r2 IH2|r1 IH1 r2 IH2|r1 IH1|];
    intros s k1 k2 Hk; cbn [matches_at].
  - destruct s; [done|]. by rewrite Hk.
  - destruct s; [done|]. by rewrite Hk.
  - apply IH1. intros rest. by apply IH2.
  - by rewrite (IH1 s k1 k2 Hk), (IH2 s k1 k2 Hk).
  - generalize (length s). intros n. revert s.
    induction n as [|n IHn]; intros s; apply IH1; intros rest;
      rewrite Hk; [done|]. by rewrite IHn.
  - by rewrite Hk.
Qed.

Section MapSubject.
Variable f : N → N.
Hypothesis f_lit : ∀ c x, lit_matches c (f x) = lit_matches c x.
Hypothesis f_range : ∀ lo hi x, range_matches lo hi (f x) = range_matches lo hi x.
Hypothesis f_newline : ∀ x, (f x =? 10)%N = (x =? 10)%N.

Lemma at_dollar_map s : at_dollar (map f s) = at_dollar s.
Proof.
  destruct s as [|x [|y s]]; [done| |].
  - cbn [map]. by rewrite !at_dollar_singleton.
  - cbn [map]. by rewrite !at_dollar_longer.
Qed.

(** A change of the subject, character by character, that the character
    tests of the embedded matcher do not see is not seen by the matcher. *)
Lemma matches_at_map r : ∀ s k,
  matches_at r (map f s) k = matches_at r s (fun rest => k (map f rest)).
Proof.
  induction r as [c|lo hi|r1 IH1 r2 IH2|r1 IH1 r2 IH2|r1 IH1|];
    intros s k; cbn [matches_at].
  - destruct s; [done|]. cbn [map]. by rewrite f_lit.
  - destruct s; [done|]. cbn [map]. by rewrite f_range.
  - rewrite IH1. apply matches_at_ext. intros rest. apply IH2.
  - by rewrite IH1, IH2.
  - rewrite length_map. generalize (length s). intros n. revert s.
    induction n as [|n IHn]; intros s; simpl; rewrite IH1; [done|].
    apply matches_at_ext. intros rest. by rewrite !length_map, IHn.
  - by rewrite at_dollar_map.
Qed.

Lemma search_map r s : search r (map f s) = search r s.
Proof.
  induction s as [|x s IH]; cbn [map search].
  - done.
  - change (f x :: map f s) with (map f (x :: s)) at 1.
    by rewrite matches_at_map, IH.
Qed.

End MapSubject.

Lemma unicode_tolower_ascii_upper x :
  unicode_tolower (ascii_upper x) = unicode_tolower x.
Proof.
  unfold ascii_upper.
  destruct (N.leb_spec 97 x); [destruct (N.leb_spec x 122)|]; simpl; [|done..].
  rewrite (unicode_tolower_lower x) by lia.
  destruct (unicode_tolower_spec (x - 32)); lia.
Qed.

Lemma unicode_tolower_ascii_lower x :
  unicode_tolower (ascii_lower x) = unicode_tolower x.
Proof.
  unfold ascii_lower.
  destruct (N.leb_spec 65 x); [destruct (N.leb_spec x 90)|]; simpl; [|done..].
  rewrite (unicode_tolower_lower (x + 32)) by lia.
  destruct (unicode_tolower_spec x); lia.
Qed.

Lemma ascii_upper_newline x : (ascii_upper x =? 10)%N = (x =? 10)%N.
Proof.
  unfold ascii_upper.
  destruct (N.leb_spec 97 x); [destruct (N.leb_spec x 122)|]; simpl; [|done..].
  destruct (N.eqb_spec (x - 32) 10), (N.eqb_spec x 10); lia || done.
Qed.

Lemma ascii_lower_newline x : (ascii_lower x =? 10)%N = (x =? 10)%N.
Proof.
  unfold ascii_lower.
  destruct (N.leb_spec 65 x); [destruct (N.leb_spec x 90)|]; simpl; [|done..].
  destruct (N.eqb_spec (x + 32) 10), (N.eqb_spec x 10); lia || done.
Qed.

(** X14.  The search for a license file ignores the case of ASCII letters: a
    name put in capitals or in small letters is found by
    [_LICENSE_FILE_PATTERN] exactly when the name is.  So, with no pretrained
    model name, the license file of a listing whose names are put in
    capitals is the license file of the listing, put in capitals. *)
Theorem license_search_ignores_case name listing rewritten :
  search _LICENSE_FILE_PATTERN (map ascii_upper name)
  = search _LICENSE_FILE_PATTERN name ∧
  search _LICENSE_FILE_PATTERN (map ascii_lower name)
  = search _LICENSE_FILE_PATTERN name ∧
  _maybe_get_license_filename (map (map ascii_upper) listing) rewritten None
  = map ascii_upper <$> _maybe_get_license_filename listing rewritten None.
Proof.
  assert (Hupper : ∀ s, search _LICENSE_FILE_PATTERN (map ascii_upper s)
                        = search _LICENSE_FILE_PATTERN s).
  { intros s. apply search_map.
    - intros c x. unfold lit_matches. by rewrite unicode_tolower_ascii_upper.
    - intros lo hi x. unfold range_matches.
      by rewrite unicode_tolower_ascii_upper.
    - apply ascii_upper_newline. }
  split_and!.
  - apply Hupper.
  - apply search_map.
    + intros c x. unfold lit_matches. by rewrite unicode_tolower_ascii_lower.
    + intros lo hi x. unfold range_matches.
      by rewrite unicode_tolower_ascii_lower.
    + apply ascii_lower_newline.
  - unfold _maybe_get_license_filename, first_license.
    induction listing as [|file listing IH]; [done|].
    cbn [List.find map]. rewrite Hupper.
    destruct (search _LICENSE_FILE_PATTERN file); [done | exact IH].
Qed.

(** X15.  With a pretrained model name, a directory that has no license file gives
    [None], whatever would be written for the model; a directory that has
    one gives the first license file of the directory as it is after the
    rewriting, or [None] if none is left. *)
Theorem license_with_pretrained_name listing rewritten name :
  let found := _maybe_get_license_filename listing rewritten (Some name) in
  (Forall (fun f => ¬ license_name f) listing → found = None) ∧
  (∀ old, first_license listing = Some old →
     (∀ new, found = Some new ↔
        ∃ before after, rewritten old = before ++ new :: after ∧
                        license_name new ∧
                        Forall (fun f => ¬ license_name f) before) ∧
     (found = None ↔ Forall (fun f => ¬ license_name f) (rewritten old))).
Proof.
  intros found. subst found. unfold _maybe_get_license_filename.
  assert (Hnot : ∀ l : list (list N),
            Forall (fun y => search _LICENSE_FILE_PATTERN y = false) l ↔
            Forall (fun f => ¬ license_name f) l).
  { intros l. apply Forall_iff. intros f.
    rewrite <- search_license_name. by destruct (search _ f). }
  split.
  - intros Hnone. apply Hnot in Hnone.
    apply (proj2 (find_first _ _)) in Hnone.
    unfold first_license. by rewrite Hnone.
  - intros old ->. unfold first_license.
    destruct (find_first (search _LICENSE_FILE_PATTERN) (rewritten old))
      as [Hsome Hnone].
    split.
    + intros new. rewrite Hsome. split.
      * intros (before & after & Hl & Hnew & Hbefore).
        exists before, after.
        split_and!; [done | by apply search_license_name | by apply Hnot].
      * intros (before & after & Hl & Hnew & Hbefore).
        exists before, after.
        split_and!; [done | by apply search_license_name | by apply Hnot].
    + by rewrite Hnone, Hnot.
Qed.

(** A directory with a readme only: no license file is reported, although a
    pretrained model name was given. *)
Lemma license_with_pretrained_name_witness :
  _maybe_get_license_filename [codepoints "README.md"]
    (fun _ => [codepoints "LICENSE.txt"]) (Some "mosaicml/mpt-7b") = None.
Proof.
  apply (proj1 (license_with_pretrained_name [codepoints "README.md"]
                  (fun _ => [codepoints "LICENSE.txt"]) "mosaicml/mpt-7b")).
  constructor; [|constructor]. intros H.
  apply search_license_name in H. discriminate H.
Defined.

(** ** More on the constructor *)

Lemma value_endswith_Ok v b :
  value_endswith v "chat" = Ok b →
  ∃ s, v = PStr s ∧ b = str_endswith s "chat".
Proof. destruct v; try discriminate. intros [= <-]. by eexists. Qed.

Lemma metadata_says_chat_Ok task_is_chat metadata b :
  metadata_says_chat task_is_chat metadata = Ok b →
  (b = true ↔
   task_is_chat = true
   ∨ ∃ d, metadata = PDict d ∧
          ends_with_chat (match d !! "task" with Some t => t | None => PStr "" end)).
Proof.
  unfold metadata_says_chat, ends_with_chat.
  destruct task_is_chat; [intros [= <-]; split; [by left | done]|].
  destruct metadata as [| | | |l|d]; try discriminate.
  - intros [= <-]. split; [done|]. by intros [[=] | (d & [=] & _)].
  - simpl. intros H. apply value_endswith_Ok in H as (s & Hs & ->). split.
    + intros Hb. right. exists d. split; [done|]. by exists s.
    + intros [[=] | (d' & [= <-] & s' & Hs' & Hb)]. congruence.
Qed.

(** What the setup makes of the config that was passed. *)
Lemma setup_mlflow_logging_config_Ok passed config :
  setup_mlflow_logging_config passed = Ok config →
  let metadata :=
    match passed !! "metadata" with Some md => md | None => PDict ∅ end in
  let task :=
    match passed !! "task" with
    | Some t => t | None => PStr "llm/v1/completions" end in
  (∀ k v, passed !! k = Some v → config !! k = Some v) ∧
  dom config = dom passed ∪ {[ "metadata"; "task"; "input_example" ]} ∧
  config !! "metadata" = Some metadata ∧
  config !! "task" = Some task ∧
  (∃ s, task = PStr s) ∧
  (passed !! "input_example" = None →
   (asks_for_chat task metadata →
    config !! "input_example" = Some default_chat_example) ∧
   (¬ asks_for_chat task metadata →
    config !! "input_example" = Some default_prompt_example)).
Proof.
  intros Hsetup metadata task. revert Hsetup.
  unfold setup_mlflow_logging_config. cbv zeta. fold metadata.
  set (c1 := <["metadata" := metadata]> passed).
  assert (Htask : setdefault "task" (PStr "llm/v1/completions") c1 !! "task"
                  = Some task).
  { unfold setdefault, c1. rewrite lookup_insert_ne by done. subst task.
    destruct (passed !! "task") as [t|] eqn:Ht; [|by rewrite lookup_insert_eq].
    by rewrite lookup_insert_ne. }
  set (c2 := setdefault "task" (PStr "llm/v1/completions") c1) in *.
  rewrite Htask. simpl.
  destruct (value_endswith task "chat") as [tic| |] eqn:Hend; [|done..].
  apply value_endswith_Ok in Hend as (s & Hs & ->). simpl.
  destruct (metadata_says_chat (str_endswith s "chat") metadata)
    as [is_chat| |] eqn:Hchat; [|done..].
  apply metadata_says_chat_Ok in Hchat. simpl. intros [= <-].
  assert (Hc2 : ∀ k, c2 !! k
                     = if decide (k = "metadata") then Some metadata
                       else if decide (k = "task") then Some task
                       else passed !! k).
  { intros k. unfold c2, setdefault, c1.
    destruct (decide (k = "metadata")) as [-> | Hm].
    - rewrite lookup_insert_ne by done.
      destruct (passed !! "task"); [by rewrite lookup_insert_eq|].
      rewrite lookup_insert_ne by done. by rewrite lookup_insert_eq.
    - destruct (decide (k = "task")) as [-> | Ht]; [exact Htask|].
      rewrite lookup_insert_ne by done.
      destruct (passed !! "task").
      + by rewrite lookup_insert_ne.
      + by rewrite !lookup_insert_ne. }
  assert (Hchat' : is_chat = true ↔ asks_for_chat task metadata).
  { rewrite Hchat. unfold asks_for_chat, ends_with_chat. split.
    - intros [H | H]; [left; by exists s | by right].
    - intros [(s' & Hs' & H) | H]; [left; congruence | by right]. }
  assert (Hfinal : ∀ k x, setdefault "input_example" x c2 !! k
                          = if decide (k = "input_example")
                            then Some (match passed !! "input_example" with
                                       | Some v => v | None => x end)
                            else c2 !! k).
  { intros k x. unfold setdefault.
    rewrite (Hc2 "input_example"). simpl.
    destruct (passed !! "input_example") as [v|] eqn:Hie.
    - destruct (decide (k = "input_example")) as [-> | ?]; [|done].
      by rewrite Hc2, Hie.
    - rewrite lookup_insert. destruct (decide ("input_example" = k)) as [<- | ?];
        [by rewrite decide_True | by rewrite decide_False]. }
  split_and!.
  - intros k v Hk. rewrite Hfinal, Hc2. subst metadata task.
    destruct (decide (k = "input_example")) as [-> | ?]; [by rewrite Hk|].
    destruct (decide (k = "metadata")) as [-> | ?]; [by rewrite Hk|].
    destruct (decide (k = "task")) as [-> | ?]; [by rewrite Hk | done].
  - apply set_eq. intros k. rewrite elem_of_dom, Hfinal, Hc2.
    rewrite elem_of_union, elem_of_dom.
    destruct (decide (k = "input_example")) as [-> | ?];
      [split; [intros _; right; set_solver | intros _; by eexists]|].
    destruct (decide (k = "metadata")) as [-> | ?];
      [split; [intros _; right; set_solver | intros _; by eexists]|].
    destruct (decide (k = "task")) as [-> | ?];
      [split; [intros _; right; set_solver | intros _; by eexists]|].
    split; [by left | intros [? | ?]; [done | set_solver]].
  - by rewrite Hfinal, Hc2.
  - by rewrite Hfinal, Hc2.
  - by exists s.
  - intros Hnone. rewrite Hfinal, Hnone. simpl. split.
    + intros Hyes. apply Hchat' in Hyes. by rewrite Hyes.
    + intros Hno. destruct is_chat; [|done]. exfalso. by apply Hno, Hchat'.
Qed.

(** The way through [__init__]. *)
Lemma init_inversion imports folder interval folder_name prec ow name config
    fi self :
  __init__ imports folder interval folder_name prec ow name config fi = Ok self →
  let passed := match config with Some c => c | None => ∅ end in
  (match name with
   | Some _ => setup_mlflow_logging_config passed
   | None => Ok passed
   end = Ok (mlflow_logging_config self)) ∧
  (match mlflow_logging_config self !! "metadata" with
   | Some md => value_get md "pretrained_model_name" PNone
   | None => Ok PNone
   end = Ok (pretrained_model_name self)) ∧
  Time_from_input imports interval EPOCH = Ok (save_interval self) ∧
  mlflow_registered_model_name self = name ∧
  using_peft self = false ∧
  last_checkpoint_batch self = None ∧
  mlflow_loggers self = [] ∧
  child_processes self = [] ∧
  temp_save_dir self = None.
Proof.
  unfold __init__. cbv zeta.
  destruct (precision_table !! prec) as [d|]; [|discriminate].
  simpl.
  destruct (match name with Some _ => _ | None => _ end) as [c|e|];
    [|discriminate..].
  simpl.
  destruct (match c !! "metadata" with Some _ => _ | None => _ end)
    as [pn|e|] eqn:Hpn; [|discriminate..].
  simpl.
  destruct (Time_from_input imports interval EPOCH) as [t|e|];
    [|discriminate..].
  simpl. intros [= <-]. simpl. by rewrite Hpn.
Qed.

(** X16.  The logging config of a callback that [__init__] returns.  Without a
    registered model name it is the config that was passed (empty when none
    was).  With one, every entry that was passed is kept as it is, the keys
    are those that were passed and ["metadata"], ["task"] and
    ["input_example"]; a missing task is ["llm/v1/completions"], and a
    missing input example is the chat example when the task, or the task of
    the metadata, ends with ["chat"], and the prompt example otherwise. *)
Theorem init_mlflow_logging_config imports folder interval folder_name prec ow
    name config fi self :
  __init__ imports folder interval folder_name prec ow name config fi = Ok self →
  let passed := match config with Some c => c | None => ∅ end in
  let made := mlflow_logging_config self in
  (name = None → made = passed) ∧
  (is_Some name →
   let metadata :=
     match passed !! "metadata" with Some md => md | None => PDict ∅ end in
   let task :=
     match passed !! "task" with
     | Some t => t | None => PStr "llm/v1/completions" end in
   (∀ k v, passed !! k = Some v → made !! k = Some v) ∧
   dom made = dom passed ∪ {[ "metadata"; "task"; "input_example" ]} ∧
   made !! "metadata" = Some metadata ∧
   made !! "task" = Some task ∧
   (passed !! "input_example" = None →
    (asks_for_chat task metadata →
     made !! "input_example" = Some default_chat_example) ∧
    (¬ asks_for_chat task metadata →
     made !! "input_example" = Some default_prompt_example))).
Proof.
  intros Hinit passed made.
  destruct (init_inversion _ _ _ _ _ _ _ _ _ _ Hinit) as (Hconfig & _).
  fold passed made in Hconfig. split.
  - intros ->. by injection Hconfig as <-.
  - intros [n ->].
    destruct (setup_mlflow_logging_config_Ok _ _ Hconfig)
      as (Hkept & Hdom & Hmd & Htask & _ & Hexample).
    by split_and!.
Qed.

(** The callback of the example comes from a call with no logging config:
    its task is the default one and its input example the prompt example. *)
Lemma init_mlflow_logging_config_witness :
  mlflow_logging_config example_checkpointer !! "task"
  = Some (PStr "llm/v1/completions") ∧
  mlflow_logging_config example_checkpointer !! "input_example"
  = Some default_prompt_example.
Proof.
  destruct (proj2 (init_mlflow_logging_config example_imports "out"
                     (IntervalStr "1dur") "ba{batch}" "float32" true
                     (Some "my-model") None ["llmfoundry"] example_checkpointer
                     eq_refl) (ex_intro _ "my-model" eq_refl))
    as (_ & _ & _ & Htask & Hexample).
  split; [exact Htask|].
  apply (proj2 (Hexample eq_refl)).
  intros [(s & Hs & Hend) | (d & Hd & s & Hs & Hend)].
  - injection Hs as <-. vm_compute in Hend. discriminate Hend.
  - injection Hd as <-. rewrite lookup_empty in Hs. injection Hs as <-.
    vm_compute in Hend. discriminate Hend.
Defined.

(** X17.  A logging config whose metadata is [None] makes [__init__] raise
    [AttributeError], with or without a registered model name, for every
    valid precision. *)
Theorem init_metadata_none imports folder interval folder_name prec ow name
    config fi :
  is_Some (precision_table !! prec) →
  config !! "metadata" = Some PNone →
  ∃ attr, __init__ imports folder interval folder_name prec ow name
            (Some config) fi = Raise (AttributeError attr).
Proof.
  intros [d Hd] Hmd. unfold __init__. cbv zeta. rewrite Hd. simpl.
  destruct name as [n|].
  - unfold setup_mlflow_logging_config. cbv zeta. rewrite Hmd.
    set (c2 := setdefault "task" _ _).
    assert (Hc2 : c2 !! "metadata" = Some PNone).
    { unfold c2, setdefault. rewrite lookup_insert_ne by done.
      destruct (config !! "task");
        [|rewrite lookup_insert_ne by done]; by rewrite lookup_insert_eq. }
    assert (Htask : ∃ t, c2 !! "task" = Some t).
    { unfold c2, setdefault.
      destruct (<["metadata" := PNone]> config !! "task") as [t|] eqn:Ht;
        [by exists t | eexists; apply lookup_insert_eq]. }
    destruct Htask as [t ->]. simpl.
    destruct t; simpl; try by eexists.
    destruct (str_endswith s "chat"); simpl.
    + set (c3 := setdefault "input_example" _ c2).
      assert (c3 !! "metadata" = Some PNone) as ->.
      { unfold c3, setdefault. destruct (c2 !! "input_example"); [done|].
        by rewrite lookup_insert_ne. }
      simpl. by eexists.
    + set (c3 := setdefault "input_example" _ c2).
      assert (c3 !! "metadata" = Some PNone) as ->.
      { unfold c3, setdefault. destruct (c2 !! "input_example"); [done|].
        by rewrite lookup_insert_ne. }
      simpl. by eexists.
  - simpl. rewrite Hmd. simpl. by eexists.
Qed.

Lemma init_metadata_none_witness :
  ∃ attr, __init__ example_imports "out" (IntervalInt 1) "ba{batch}" "float32"
            true None (Some {[ "metadata" := PNone ]}) ["llmfoundry"]
          = Raise (AttributeError attr).
Proof.
  apply init_metadata_none; [by eexists | reflexivity].
Defined.

(** X18.  A callback that [__init__] returns is fresh: no marker, no loggers, no
    processes, no temporary directory, no adapter.  Its metadata, when there
    is any, is a dictionary, and its pretrained model name is the entry
    ["pretrained_model_name"] of that dictionary, [None] when the entry or
    the metadata is missing. *)
Theorem init_fresh imports folder interval folder_name prec ow name config fi
    self :
  __init__ imports folder interval folder_name prec ow name config fi = Ok self →
  last_checkpoint_batch self = None ∧
  mlflow_loggers self = [] ∧
  child_processes self = [] ∧
  temp_save_dir self = None ∧
  using_peft self = false ∧
  (mlflow_logging_config self !! "metadata" = None ∧
   pretrained_model_name self = PNone
   ∨ ∃ d, mlflow_logging_config self !! "metadata" = Some (PDict d) ∧
          pretrained_model_name self
          = match d !! "pretrained_model_name" with
            | Some v => v | None => PNone end) ∧
  (is_Some name → is_Some (mlflow_logging_config self !! "metadata")).
Proof.
  intros Hinit.
  destruct (init_inversion _ _ _ _ _ _ _ _ _ _ Hinit)
    as (Hconfig & Hname & _ & _ & Hpeft & Hmarker & Hloggers & Hchildren & Htemp).
  split_and!; try done.
  - destruct (mlflow_logging_config self !! "metadata") as [md|].
    + right. destruct md as [| | | |l|d]; try discriminate Hname.
      exists d. split; [done|]. by injection Hname as <-.
    + left. split; [done|]. by injection Hname as <-.
  - intros [n ->].
    destruct (setup_mlflow_logging_config_Ok _ _ Hconfig) as (_ & _ & -> & _).
    by eexists.
Qed.

(** The callback of the example is fresh. *)
Lemma init_fresh_witness :
  last_checkpoint_batch example_checkpointer = None ∧
  child_processes example_checkpointer = [].
Proof.
  destruct (init_fresh example_imports "out" (IntervalStr "1dur") "ba{batch}"
              "float32" true (Some "my-model") None ["llmfoundry"]
              example_checkpointer eq_refl) as (H1 & _ & H2 & _).
  by split.
Defined.

(** X19.  An integer [save_interval] counts epochs.  For a callback made with one,
    the two special cases of [_is_last_batch] never apply: with a maximum
    duration set, it returns whether the elapsed fraction is at least 1.0. *)
Theorem init_integer_interval imports folder n folder_name prec ow name config
    fi self :
  __init__ imports folder (IntervalInt n) folder_name prec ow name config fi
  = Ok self →
  save_interval self = {| value := inject_Z n; unit := EPOCH |} ∧
  ∀ state, is_Some (max_duration state) →
    (elapsed_at_least_one state → _is_last_batch self state = Ok true) ∧
    (¬ elapsed_at_least_one state → _is_last_batch self state = Ok false).
Proof.
  intros Hinit.
  destruct (init_inversion _ _ _ _ _ _ _ _ _ _ Hinit) as (_ & _ & Ht & _).
  simpl in Ht. injection Ht as Ht. split; [done|].
  intros state [md Hmd]. split.
  - intros Ha. apply is_last_batch_iff. by left.
  - intros Ha. rewrite elapsed_at_least_one_spec in Ha.
    apply not_true_is_false in Ha.
    unfold _is_last_batch. cbv zeta. rewrite Ha, Hmd, <- Ht. reflexivity.
Qed.

Lemma init_integer_interval_witness :
  ∃ self,
    __init__ example_imports "out" (IntervalInt 1) "ba{batch}" "float32"
      true None None ["llmfoundry"] = Ok self ∧
    _is_last_batch self
      (example_state (Some (1 # 2))
                     {| epoch := 1; batch := 30; batch_in_epoch := 0 |})
    = Ok false.
Proof.
  eexists. split; [reflexivity|].
  apply (proj2 (init_integer_interval example_imports "out" 1 "ba{batch}"
                  "float32" true None None ["llmfoundry"] _ eq_refl)).
  - by eexists.
  - intros (e & [= <-] & H). by apply Qle_bool_iff in H.
Defined.

(** ** The arguments for [save_model] *)

(** X20.  Whatever the logging config holds, the arguments for [save_model] carry
    [pip_requirements = ["transformers", "torch"]].  For an adapter model the
    arguments are the path, the flavor ["peft"], the directory and the
    metadata, and nothing else of the config; for any other model every
    other entry of the config is passed on, also over the path and the
    flavor. *)
Theorem model_saving_kwargs_entries self path temp components kwargs :
  model_saving_kwargs self path temp components = Ok kwargs →
  kwargs !! "pip_requirements"
  = Some (PList [PStr "transformers"; PStr "torch"]) ∧
  (using_peft self = true →
   dom kwargs = {[ "path"; "flavor"; "save_pretrained_dir"; "metadata";
                   "pip_requirements" ]} ∧
   kwargs !! "path" = Some (PStr path) ∧
   kwargs !! "flavor" = Some (PStr "peft") ∧
   kwargs !! "save_pretrained_dir" = Some (PStr temp) ∧
   kwargs !! "metadata" = mlflow_logging_config self !! "metadata") ∧
  (using_peft self = false →
   (∀ k v, k ≠ "pip_requirements" →
           mlflow_logging_config self !! k = Some v → kwargs !! k = Some v) ∧
   (mlflow_logging_config self !! "path" = None →
    kwargs !! "path" = Some (PStr path)) ∧
   (mlflow_logging_config self !! "flavor" = None →
    kwargs !! "flavor" = Some (PStr "transformers")) ∧
   (mlflow_logging_config self !! "transformers_model" = None →
    kwargs !! "transformers_model" = Some components)).
Proof.
  unfold model_saving_kwargs. cbv zeta.
  destruct (using_peft self).
  - destruct (mlflow_logging_config self !! "metadata") as [md|] eqn:Hmd;
      [|discriminate].
    simpl. intros [= <-]. split_and!; [by rewrite lookup_insert_eq | | done].
    intros _. split_and!.
    + rewrite !dom_insert_L, dom_singleton_L. set_solver.
    + lookups. by rewrite lookup_singleton_eq.
    + by lookups.
    + by lookups.
    + by lookups.
  - simpl. intros [= <-]. split_and!; [by rewrite lookup_insert_eq | done |].
    intros _. split_and!.
    + intros k v Hk Hv. rewrite lookup_insert_ne by done.
      apply lookup_union_Some_l. exact Hv.
    + intros Hnone. rewrite lookup_insert_ne by done.
      rewrite lookup_union_r by done.
      lookups. by rewrite lookup_singleton_eq.
    + intros Hnone. rewrite lookup_insert_ne by done.
      rewrite lookup_union_r by done.
      by lookups.
    + intros Hnone. rewrite lookup_insert_ne by done.
      rewrite lookup_union_r by done.
      by rewrite lookup_insert_eq.
Qed.

Lemma model_saving_kwargs_entries_witness :
  ∃ kwargs,
    model_saving_kwargs example_peft_checkpointer "out/mlflow_save_0" "out"
      (PStr "components") = Ok kwargs ∧
    kwargs !! "pip_requirements"
    = Some (PList [PStr "transformers"; PStr "torch"]).
Proof.
  eexists. split; [reflexivity|].
  exact (proj1 (model_saving_kwargs_entries example_peft_checkpointer
                  "out/mlflow_save_0" "out" (PStr "components") _ eq_refl)).
Defined.

(** X21.  A callback that [__init__] made with a registered model name has its
    metadata, so the arguments for [save_model] can be built for it whether
    or not [INIT] finds an adapter; without a metadata entry the adapter
    flavor fails with [KeyError]. *)
Theorem model_saving_kwargs_after_init imports folder interval folder_name
    prec ow name config fi self :
  __init__ imports folder interval folder_name prec ow (Some name) config fi
  = Ok self →
  (∀ peft path temp components,
     ∃ kwargs, model_saving_kwargs (set_using_peft peft self) path temp
                 components = Ok kwargs) ∧
  (∀ other path temp components,
     using_peft other = true →
     mlflow_logging_config other !! "metadata" = None →
     model_saving_kwargs other path temp components
     = Raise (KeyError "metadata")).
Proof.
  intros Hinit. split.
  - destruct (init_inversion _ _ _ _ _ _ _ _ _ _ Hinit) as (Hconfig & _).
    destruct (setup_mlflow_logging_config_Ok _ _ Hconfig) as (_ & _ & Hmd & _).
    intros peft path temp components. unfold model_saving_kwargs. cbv zeta.
    change (using_peft (set_using_peft peft self)) with peft.
    change (mlflow_logging_config (set_using_peft peft self))
      with (mlflow_logging_config self).
    rewrite Hmd. destruct peft; by eexists.
  - intros other path temp components Hpeft Hnone.
    unfold model_saving_kwargs. cbv zeta. by rewrite Hpeft, Hnone.
Qed.

Lemma model_saving_kwargs_after_init_witness :
  ∃ kwargs,
    model_saving_kwargs (set_using_peft true example_checkpointer)
      "out/mlflow_save_0" "out" (PStr "components") = Ok kwargs.
Proof.
  exact (proj1 (model_saving_kwargs_after_init example_imports "out"
                  (IntervalStr "1dur") "ba{batch}" "float32" true "my-model"
                  None ["llmfoundry"] example_checkpointer eq_refl)
           true "out/mlflow_save_0" "out" (PStr "components")).
Defined.
